(** * micro-si-intake: validation and normalisation of the intake form

    A shallow embedding of the Zod schema [IntakeSchema], of
    [buildNormalizedIntake] (src/app/page.tsx) and of [pickFirst]
    (src/app/blueprint/[id]/page.tsx), with the properties the
    specification states about them. *)

From Stdlib Require Import NArith ZArith Lia.
From stdpp Require Import base option list strings.

Local Open Scope list_scope.

(** ** JavaScript strings

    A JavaScript string is a sequence of UTF-16 code units; [length],
    [trim], [split] and [===] all work on code units. *)

Definition jsstring : Type := list N.

(** An ASCII literal of the source as a sequence of code units. *)
Definition lit (s : string) : jsstring :=
  map Ascii.N_of_ascii (String.list_ascii_of_string s).

Definition str_eqb (a b : jsstring) : bool := bool_decide (a = b).

(** [String.prototype.trim] strips WhiteSpace and LineTerminator code
    points: TAB, LF, VT, FF, CR, SP, NBSP, the Unicode space separators,
    LS, PS and the byte order mark. *)
Definition whitespace_code_units : list N :=
  [9; 10; 11; 12; 13; 32; 160; 5760;
   8192; 8193; 8194; 8195; 8196; 8197; 8198; 8199; 8200; 8201; 8202;
   8232; 8233; 8239; 8287; 12288; 65279]%N.

Definition is_ws (c : N) : bool := existsb (N.eqb c) whitespace_code_units.

Fixpoint trim_start (s : jsstring) : jsstring :=
  match s with
  | [] => []
  | c :: r => if is_ws c then trim_start r else s
  end.

Definition trim_end (s : jsstring) : jsstring :=
  reverse (trim_start (reverse s)).

Definition trim (s : jsstring) : jsstring := trim_end (trim_start s).

(** [s.split(sep)] for a one-code-unit separator: the empty string gives
    one empty segment. *)
Fixpoint split (sep : N) (s : jsstring) : list jsstring :=
  match s with
  | [] => [[]]
  | c :: r =>
      if (c =? sep)%N then [] :: split sep r
      else match split sep r with
           | seg :: segs => (c :: seg) :: segs
           | [] => [[c]]
           end
  end.

(** [segs.join(sep)]. *)
Fixpoint join (sep : N) (segs : list jsstring) : jsstring :=
  match segs with
  | [] => []
  | [seg] => seg
  | seg :: rest => seg ++ sep :: join sep rest
  end.

Definition comma : N := 44%N.

(** [Boolean(s)] for a string: only the empty string is falsy. *)
Definition truthy_str (s : jsstring) : bool :=
  match s with [] => false | _ :: _ => true end.

(** [!!v] for a value of type [string | undefined]. *)
Definition truthy_opt (o : option jsstring) : bool :=
  match o with Some s => truthy_str s | None => false end.

(** [v || ''] for a value [v] of type [string | undefined]. *)
Definition or_empty (o : option jsstring) : jsstring :=
  match o with
  | Some s => if truthy_str s then s else []
  | None => []
  end.

(** Lines 138-141 of [buildNormalizedIntake]:
    the field, or the empty string when it is absent, split on commas,
    each segment trimmed, the falsy (empty) ones filtered out. *)
Definition customFields (customContextFields : option jsstring) : list jsstring :=
  List.filter truthy_str (map trim (split comma (or_empty customContextFields))).

(** ** What the specification says about the custom fields

    The words of the specification, as relations: a comma split of [s] is
    a non-empty list of comma-free segments that joins back to [s]; a
    trimmed segment is the segment less a whitespace prefix and suffix,
    with no whitespace left at either end. *)
Definition is_comma_split (s : jsstring) (segs : list jsstring) : Prop :=
  segs ≠ [] ∧ join comma segs = s ∧ Forall (λ seg, comma ∉ seg) segs.

Definition is_trimmed_of (seg t : jsstring) : Prop :=
  (∃ pre post, seg = pre ++ t ++ post
               ∧ Forall (λ c, is_ws c = true) pre
               ∧ Forall (λ c, is_ws c = true) post)
  ∧ (∀ c, head t = Some c → is_ws c = false)
  ∧ (∀ c, last t = Some c → is_ws c = false).

(** ** JavaScript values and objects *)

#[local] Unset Elimination Schemes.
Inductive jsval : Type :=
  | JUndefined
  | JNull
  | JBool (b : bool)
  | JNumber (n : Z)
  | JString (s : jsstring)
  | JArray (xs : list jsval)
  | JObject (props : list (string * jsval)).
#[local] Set Elimination Schemes.

(** A property that an object lacks reads as [undefined], so the form
    values handed to the schema are a total map from property names. *)
Definition object : Type := string → jsval.

Definition object_of (props : list (string * jsval)) : object :=
  λ k, default JUndefined (snd <$> List.find (λ kv, String.eqb kv.1 k) props).

(** [{...data, [k]: v}]: the object with one property replaced. *)
Definition with_prop (k : string) (v : jsval) (data : object) : object :=
  λ k', if String.eqb k' k then v else data k'.

(** ** Zod issues and schemas

    An issue carries the path of the offending value and, where the source
    gives one, its message (the library's default messages are left out).
    A schema returns the issues it raised and its output, [None] when the
    parse was aborted: a value of the wrong type aborts, a failed
    [min] check leaves the value in place ("dirty").

    The kinds group Zod's issue codes: [invalid_type] for a value of the
    wrong JavaScript type (a missing required value included),
    [invalid_value] for a value outside an enum or a literal,
    [too_small] for a failed [min], [custom] for the issues the source
    adds itself in [superRefine]. *)

Inductive pathseg : Type :=
  | PKey (k : string)
  | PIndex (i : nat).

Inductive issue_kind : Type :=
  | invalid_type
  | invalid_value
  | too_small
  | custom.

Record issue : Type := Issue {
  kind : issue_kind;
  path : list pathseg;
  message : option string;
}.

(** The form field an issue is reported on: the head of its path. *)
Definition keyed_to (field : string) (i : issue) : Prop :=
  head (path i) = Some (PKey field).

Definition schema (A : Type) : Type :=
  list pathseg → jsval → list issue * option A.

Definition z_string : schema jsstring := λ p v,
  match v with
  | JString s => ([], Some s)
  | _ => ([Issue invalid_type p None], None)
  end.

(** [.trim()] rewrites the parsed string and raises nothing. *)
Definition z_trim (inner : schema jsstring) : schema jsstring := λ p v,
  let '(iss, r) := inner p v in (iss, trim <$> r).

(** [.min(n, msg)] on a string. *)
Definition z_min (n : nat) (msg : option string) (inner : schema jsstring)
  : schema jsstring := λ p v,
  match inner p v with
  | (iss, Some s) =>
      if (length s <? n)%nat then (iss ++ [Issue too_small p msg], Some s)
      else (iss, Some s)
  | r => r
  end.

Definition z_optional {A} (inner : schema A) : schema (option A) := λ p v,
  match v with
  | JUndefined => ([], Some None)
  | _ => let '(iss, r) := inner p v in (iss, Some <$> r)
  end.

Definition z_boolean : schema bool := λ p v,
  match v with
  | JBool b => ([], Some b)
  | _ => ([Issue invalid_type p None], None)
  end.

Definition z_enum (values : list string) : schema jsstring := λ p v,
  match v with
  | JString s =>
      if bool_decide (s ∈ map lit values) then ([], Some s)
      else ([Issue invalid_value p None], None)
  | _ => ([Issue invalid_type p None], None)
  end.

Definition z_literal (value : string) : schema jsstring := λ p v,
  match v with
  | JString s =>
      if str_eqb s (lit value) then ([], Some s)
      else ([Issue invalid_value p None], None)
  | _ => ([Issue invalid_value p None], None)
  end.

(** [z.array(elem).min(n, msg)]: the length check leaves the array in
    place; an element that aborts aborts the array. *)
Definition z_array_min {A} (elem : schema A) (n : nat) (msg : option string)
  : schema (list A) := λ p v,
  match v with
  | JArray xs =>
      let small :=
        if (length xs <? n)%nat then [Issue too_small p msg] else [] in
      let rs := imap (λ i x, elem (p ++ [PIndex i]) x) xs in
      (small ++ concat (fst <$> rs), mapM snd rs)
  | _ => ([Issue invalid_type p None], None)
  end.

(** ** The intake schema (src/app/page.tsx, lines 10-119) *)

Definition CRM_ENUM := z_enum ["hubspot"; "salesforce"; "other"].
Definition CONTACT_CENTER_ENUM :=
  z_enum ["ringcentral"; "five9"; "genesys"; "nice"; "other"].
Definition AGENT_WORKSPACE_ENUM :=
  z_enum ["native_ccp_desktop"; "embedded_crm_panel"; "custom_workspace";
          "hybrid_workspace"; "unknown"].
Definition CRM_ACTIVITY_ENUM := z_enum ["engagement"; "task"; "note"].
Definition OWNER_STRATEGY_ENUM :=
  z_enum ["map_agent_email"; "fixed_owner"; "unassigned"].
Definition PHONE_NORM_ENUM := z_enum ["us_e164"; "as_is"; "other"].
Definition CONTEXT_PLACEMENT_ENUM :=
  z_enum ["interaction_tab"; "sidebar"; "unknown"].
Definition VOLUME_ENUM :=
  z_enum ["lt_100"; "100_1000"; "1000_10000"; "gt_10000"].
Definition LATENCY_ENUM := z_enum ["best_effort"; "under_2s"; "under_500ms"].
Definition SENSITIVITY_ENUM := z_enum ["low"; "pii"; "regulated"].
Definition LOGGING_ENUM := z_enum ["mask_pii"; "no_payload_logging"].

(** The two messages of the schema that the properties below name. *)
Definition subject_template_message : string := "Subject template is required".
Definition regulated_logging_message : string :=
  "For regulated data, use 'No payload logging' (recommended).".

(** [z.infer<typeof IntakeSchema>]: the parsed form. Enum members stay
    strings, as they are at run time. *)
Module IntakeForm.
Record t : Type := Build {
  mode : jsstring;
  crm : jsstring;
  otherCrmName : option jsstring;
  contactCenter : jsstring;
  otherContactCenterName : option jsstring;
  agentWorkspace : jsstring;
  environment : jsstring;
  direction : jsstring;
  voiceOnly : bool;
  crmActivityObjectType : jsstring;
  subjectTemplate : jsstring;
  associations : list jsstring;
  matchingStrategy : list jsstring;
  phoneNormalization : jsstring;
  externalIdField : option jsstring;
  contextFields : list jsstring;
  customContextFields : option jsstring;
  contextPlacement : jsstring;
  ownerStrategy : jsstring;
  fixedOwner : option jsstring;
  storeCallId : bool;
  callIdField : jsstring;
  expectedVolume : jsstring;
  idempotencyKey : jsstring;
  latencyTarget : jsstring;
  dataSensitivity : jsstring;
  logging : jsstring;
}.
End IntakeForm.

(** One property of the object schema: the value under [k], parsed at
    path [[k]]. *)
Definition prop {A} (k : string) (s : schema A) (data : object)
  : list issue * option A := s [PKey k] (data k).

(** The [z.object({...})] part of [IntakeSchema]: every property is
    parsed, in the order of the shape, and the issues of all of them are
    collected; one aborted property aborts the object. *)
Definition parse_object (data : object) : list issue * option IntakeForm.t :=
  let mode := prop "mode" (z_literal "feedback_only") data in
  let crm := prop "crm" CRM_ENUM data in
  let otherCrmName := prop "otherCrmName" (z_optional (z_trim z_string)) data in
  let contactCenter := prop "contactCenter" CONTACT_CENTER_ENUM data in
  let otherContactCenterName :=
    prop "otherContactCenterName" (z_optional (z_trim z_string)) data in
  let agentWorkspace := prop "agentWorkspace" AGENT_WORKSPACE_ENUM data in
  let environment := prop "environment" (z_enum ["sandbox"; "demo"]) data in
  let direction :=
    prop "direction" (z_enum ["inbound"; "outbound"; "both"]) data in
  let voiceOnly := prop "voiceOnly" z_boolean data in
  let crmActivityObjectType :=
    prop "crmActivityObjectType" CRM_ACTIVITY_ENUM data in
  let subjectTemplate :=
    prop "subjectTemplate"
      (z_min 5 (Some subject_template_message) z_string) data in
  let associations :=
    prop "associations"
      (z_array_min (z_enum ["contact"; "company"; "deal"]) 1
         (Some "Select at least one association")) data in
  let matchingStrategy :=
    prop "matchingStrategy"
      (z_array_min (z_enum ["ani_phone_match"; "external_id"]) 1 None) data in
  let phoneNormalization := prop "phoneNormalization" PHONE_NORM_ENUM data in
  let externalIdField :=
    prop "externalIdField" (z_optional (z_trim z_string)) data in
  let contextFields :=
    prop "contextFields"
      (z_array_min z_string 1 (Some "Select at least one context field"))
      data in
  let customContextFields :=
    prop "customContextFields" (z_optional (z_trim z_string)) data in
  let contextPlacement :=
    prop "contextPlacement" CONTEXT_PLACEMENT_ENUM data in
  let ownerStrategy := prop "ownerStrategy" OWNER_STRATEGY_ENUM data in
  let fixedOwner := prop "fixedOwner" (z_optional (z_trim z_string)) data in
  let storeCallId := prop "storeCallId" z_boolean data in
  let callIdField := prop "callIdField" (z_trim z_string) data in
  let expectedVolume := prop "expectedVolume" VOLUME_ENUM data in
  let idempotencyKey := prop "idempotencyKey" (z_trim z_string) data in
  let latencyTarget := prop "latencyTarget" LATENCY_ENUM data in
  let dataSensitivity := prop "dataSensitivity" SENSITIVITY_ENUM data in
  let logging := prop "logging" LOGGING_ENUM data in
  ( mode.1 ++ crm.1 ++ otherCrmName.1 ++ contactCenter.1
    ++ otherContactCenterName.1 ++ agentWorkspace.1 ++ environment.1
    ++ direction.1 ++ voiceOnly.1 ++ crmActivityObjectType.1
    ++ subjectTemplate.1 ++ associations.1 ++ matchingStrategy.1
    ++ phoneNormalization.1 ++ externalIdField.1 ++ contextFields.1
    ++ customContextFields.1 ++ contextPlacement.1 ++ ownerStrategy.1
    ++ fixedOwner.1 ++ storeCallId.1 ++ callIdField.1 ++ expectedVolume.1
    ++ idempotencyKey.1 ++ latencyTarget.1 ++ dataSensitivity.1 ++ logging.1,
    v1 ← mode.2; v2 ← crm.2; v3 ← otherCrmName.2; v4 ← contactCenter.2;
    v5 ← otherContactCenterName.2; v6 ← agentWorkspace.2;
    v7 ← environment.2; v8 ← direction.2; v9 ← voiceOnly.2;
    v10 ← crmActivityObjectType.2; v11 ← subjectTemplate.2;
    v12 ← associations.2; v13 ← matchingStrategy.2;
    v14 ← phoneNormalization.2; v15 ← externalIdField.2;
    v16 ← contextFields.2; v17 ← customContextFields.2;
    v18 ← contextPlacement.2; v19 ← ownerStrategy.2; v20 ← fixedOwner.2;
    v21 ← storeCallId.2; v22 ← callIdField.2; v23 ← expectedVolume.2;
    v24 ← idempotencyKey.2; v25 ← latencyTarget.2; v26 ← dataSensitivity.2;
    v27 ← logging.2;
    Some (IntakeForm.Build v1 v2 v3 v4 v5 v6 v7 v8 v9 v10 v11 v12 v13 v14
            v15 v16 v17 v18 v19 v20 v21 v22 v23 v24 v25 v26 v27) ).

(** [ctx.addIssue({code: custom, path: [field], message})]. *)
Definition addIssue (field message : string) : issue :=
  Issue custom [PKey field] (Some message).

(** The [.superRefine((val, ctx) => ...)] callback: five independent
    cross-field rules, in source order. *)
Definition superRefine (val : IntakeForm.t) : list issue :=
  (if str_eqb (IntakeForm.crm val) (lit "other")
      && negb (truthy_opt (IntakeForm.otherCrmName val))
   then [addIssue "otherCrmName" "Please specify the CRM name"] else [])
  ++ (if str_eqb (IntakeForm.contactCenter val) (lit "other")
         && negb (truthy_opt (IntakeForm.otherContactCenterName val))
      then [addIssue "otherContactCenterName"
              "Please specify the contact center name"] else [])
  ++ (if bool_decide (lit "external_id" ∈ IntakeForm.matchingStrategy val)
         && negb (truthy_opt (IntakeForm.externalIdField val))
      then [addIssue "externalIdField"
              "External ID field is required when using external ID matching"]
      else [])
  ++ (if str_eqb (IntakeForm.ownerStrategy val) (lit "fixed_owner")
         && negb (truthy_opt (IntakeForm.fixedOwner val))
      then [addIssue "fixedOwner"
              "Fixed owner is required when using fixed owner strategy"]
      else [])
  ++ (if str_eqb (IntakeForm.dataSensitivity val) (lit "regulated")
         && negb (str_eqb (IntakeForm.logging val) (lit "no_payload_logging"))
      then [addIssue "logging" regulated_logging_message] else []).

(** The result of [IntakeSchema.safeParse]: [{success: true, data}] or
    [{success: false, error}]; it never throws. *)
Inductive SafeParseReturn : Type :=
  | ParseSuccess (data : IntakeForm.t)
  | ParseError (issues : list issue).

(** [IntakeSchema.safeParse(data)]: the refinement runs on the parsed
    object unless the object parse was aborted, and the parse succeeds
    when no issue was raised at all. *)
Definition safeParse (data : object) : SafeParseReturn :=
  match parse_object data with
  | (iss, None) => ParseError iss
  | (iss, Some val) =>
      match iss ++ superRefine val with
      | [] => ParseSuccess val
      | all => ParseError all
      end
  end.

(** What every schema of the library guarantees about the issues it
    raises itself: they are never [custom] ones, they sit at or below the
    path the schema was run at, and an aborted parse has raised
    something. *)
Definition schema_wf {A} (s : schema A) : Prop :=
  ∀ p v,
    Forall (λ i, kind i ≠ custom ∧ p `prefix_of` path i) (s p v).1
    ∧ ((s p v).2 = None → (s p v).1 ≠ []).

(** ** The normalizer (src/app/page.tsx, lines 137-210) *)

(** A value of type [T | null]. *)
Inductive nullable (A : Type) : Type :=
  | Null
  | Val (a : A).
Arguments Null {A}.
Arguments Val {A} a.

(** [v ?? null] for [v : T | undefined]. *)
Definition or_null {A} (v : option A) : nullable A :=
  match v with Some a => Val a | None => Null end.

(** A value of type [string | undefined] inside a template literal. *)
Definition template_str (v : option jsstring) : jsstring :=
  match v with Some s => s | None => lit "undefined" end.

(** The normalized document. Its [warnings] are an array the function
    allocates and then pushes to, so the document of the function holds a
    reference ([W := loc]); read through the store it is the plain JSON
    document ([W := list jsstring]). *)
Module Normalized.
Record systems_t : Type := Systems {
  crm : jsstring;
  otherCrmName : nullable jsstring;
  contactCenter : jsstring;
  otherContactCenterName : nullable jsstring;
  agentWorkspace : jsstring;
  environment : jsstring;
}.
Record trigger_t : Type := Trigger {
  event : jsstring;
  interactionType : jsstring;
  direction : jsstring;
}.
Record crmActivity_t : Type := CrmActivity {
  objectType : jsstring;
  subjectTemplate : jsstring;
  associations : list jsstring;
}.
Record matching_t : Type := Matching {
  strategy : list jsstring;
  phoneNormalization : jsstring;
  externalIdField : nullable jsstring;
}.
Record contextInjection_t : Type := ContextInjection {
  fields : list jsstring;
  customFields : list jsstring;
  placement : jsstring;
}.
Record ownership_t : Type := Ownership {
  ownerStrategy : jsstring;
  fixedOwner : nullable jsstring;
  storeInteractionId : bool;
  interactionIdField : nullable jsstring;
}.
Record reliability_t : Type := Reliability {
  expectedVolume : jsstring;
  idempotencyKey : jsstring;
  latencyTarget : jsstring;
}.
Record security_t : Type := Security {
  dataSensitivity : jsstring;
  logging : jsstring;
}.
Record t (W : Type) : Type := Build {
  version : jsstring;
  mode : jsstring;
  systems : systems_t;
  trigger : trigger_t;
  crmActivity : crmActivity_t;
  matching : matching_t;
  contextInjection : contextInjection_t;
  ownership : ownership_t;
  reliability : reliability_t;
  security : security_t;
  warnings : W;
}.
Arguments Build {W}.
Arguments version {W}.
Arguments mode {W}.
Arguments systems {W}.
Arguments trigger {W}.
Arguments crmActivity {W}.
Arguments matching {W}.
Arguments contextInjection {W}.
Arguments ownership {W}.
Arguments reliability {W}.
Arguments security {W}.
Arguments warnings {W}.
End Normalized.

(** The store of string arrays: a reference is an index into it. *)
Definition loc : Type := nat.
Abbreviation heap := (list (list jsstring)).

(** [[] as string[]]: a fresh, empty array. *)
Definition alloc_array (h : heap) : loc * heap := (length h, h ++ [[]]).

(** [arr.push(s)]. *)
Definition push (arr : loc) (s : jsstring) (h : heap) : heap :=
  alter (λ a, a ++ [s]) arr h.

Definition em_dash : N := 8212%N.

Definition WARN_ENVIRONMENT : jsstring :=
  lit "Evaluation-only: environment must be sandbox/demo.".
Definition WARN_AGENT_WORKSPACE : jsstring :=
  lit "Agent workspace not determined " ++ [em_dash]
  ++ lit " context injection placement may vary by platform.".
Definition WARN_REGULATED : jsstring :=
  lit "Regulated data indicated " ++ [em_dash]
  ++ lit " security review required before production use.".

(** [buildNormalizedIntake(input)], run in a store [h]: it returns the
    document and the store it leaves. *)
Definition buildNormalizedIntake (input : IntakeForm.t) (h : heap)
  : Normalized.t loc * heap :=
  let customFields := customFields (IntakeForm.customContextFields input) in
  let contactCenterName :=
    if str_eqb (IntakeForm.contactCenter input) (lit "other")
    then IntakeForm.otherContactCenterName input
    else Some (IntakeForm.contactCenter input) in
  let interactionType :=
    if IntakeForm.voiceOnly input then lit "voice" else lit "generic" in
  let eventType := template_str contactCenterName ++ lit ".interaction.accepted" in
  let '(warnings, h) := alloc_array h in
  let normalized :=
    Normalized.Build
      (lit "v1")
      (IntakeForm.mode input)
      (Normalized.Systems
         (IntakeForm.crm input)
         (if str_eqb (IntakeForm.crm input) (lit "other")
          then or_null (IntakeForm.otherCrmName input) else Null)
         (IntakeForm.contactCenter input)
         (if str_eqb (IntakeForm.contactCenter input) (lit "other")
          then or_null (IntakeForm.otherContactCenterName input) else Null)
         (IntakeForm.agentWorkspace input)
         (IntakeForm.environment input))
      (Normalized.Trigger eventType interactionType
         (IntakeForm.direction input))
      (Normalized.CrmActivity
         (IntakeForm.crmActivityObjectType input)
         (IntakeForm.subjectTemplate input)
         (IntakeForm.associations input))
      (Normalized.Matching
         (IntakeForm.matchingStrategy input)
         (IntakeForm.phoneNormalization input)
         (if bool_decide (lit "external_id" ∈ IntakeForm.matchingStrategy input)
          then or_null (IntakeForm.externalIdField input) else Null))
      (Normalized.ContextInjection
         (IntakeForm.contextFields input)
         customFields
         (IntakeForm.contextPlacement input))
      (Normalized.Ownership
         (IntakeForm.ownerStrategy input)
         (if str_eqb (IntakeForm.ownerStrategy input) (lit "fixed_owner")
          then or_null (IntakeForm.fixedOwner input) else Null)
         (IntakeForm.storeCallId input)
         (if IntakeForm.storeCallId input
          then Val (IntakeForm.callIdField input) else Null))
      (Normalized.Reliability
         (IntakeForm.expectedVolume input)
         (IntakeForm.idempotencyKey input)
         (IntakeForm.latencyTarget input))
      (Normalized.Security
         (IntakeForm.dataSensitivity input)
         (IntakeForm.logging input))
      warnings in
  let environment := Normalized.environment (Normalized.systems normalized) in
  let h :=
    if negb (str_eqb environment (lit "sandbox"))
       && negb (str_eqb environment (lit "demo"))
    then push (Normalized.warnings normalized) WARN_ENVIRONMENT h else h in
  let h :=
    if str_eqb (Normalized.agentWorkspace (Normalized.systems normalized))
         (lit "unknown")
    then push (Normalized.warnings normalized) WARN_AGENT_WORKSPACE h else h in
  let h :=
    if str_eqb (Normalized.dataSensitivity (Normalized.security normalized))
         (lit "regulated")
    then push (Normalized.warnings normalized) WARN_REGULATED h else h in
  (normalized, h).

(** The document as a reader sees it (as [JSON.stringify] walks it): the
    [warnings] reference replaced by the array it points to. *)
Definition read_document (r : Normalized.t loc * heap)
  : Normalized.t (list jsstring) :=
  let '(d, h) := r in
  Normalized.Build
    (Normalized.version d) (Normalized.mode d) (Normalized.systems d)
    (Normalized.trigger d) (Normalized.crmActivity d) (Normalized.matching d)
    (Normalized.contextInjection d) (Normalized.ownership d)
    (Normalized.reliability d) (Normalized.security d)
    (default [] (h !! Normalized.warnings d)).

(** The canonical blueprint of a call made in store [h]. *)
Definition blueprint (h : heap) (input : IntakeForm.t)
  : Normalized.t (list jsstring) :=
  read_document (buildNormalizedIntake input h).

(** ** The summary page's fallback helper
    (src/app/blueprint/[id]/page.tsx, lines 14-19) *)

(** [v !== undefined && v !== null && v !== '']. *)
Definition is_present (v : jsval) : bool :=
  match v with
  | JUndefined => false
  | JNull => false
  | JString [] => false
  | _ => true
  end.

(** [pickFirst(...values)]: the loop over the arguments, in order. *)
Fixpoint pickFirst (values : list jsval) : jsval :=
  match values with
  | [] => JUndefined
  | v :: rest => if is_present v then v else pickFirst rest
  end.

(** ** The advisory warnings, in the words of the specification

    Three warnings, each decided on its own and appended in this order:
    the environment is neither sandbox nor demo; the agent workspace is
    unknown; the data is regulated. *)
Definition advisory_warnings (input : IntakeForm.t) : list jsstring :=
  (if bool_decide (IntakeForm.environment input ∉ [lit "sandbox"; lit "demo"])
   then [WARN_ENVIRONMENT] else [])
  ++ (if bool_decide (IntakeForm.agentWorkspace input = lit "unknown")
      then [WARN_AGENT_WORKSPACE] else [])
  ++ (if bool_decide (IntakeForm.dataSensitivity input = lit "regulated")
      then [WARN_REGULATED] else []).

(** The form's [defaultValues] (src/app/page.tsx, lines 220-243). *)
Definition jstr (s : string) : jsval := JString (lit s).

Definition defaultValues : object :=
  object_of
    [ ("mode", jstr "feedback_only");
      ("crm", jstr "hubspot");
      ("contactCenter", jstr "ringcentral");
      ("agentWorkspace", jstr "native_ccp_desktop");
      ("environment", jstr "sandbox");
      ("direction", jstr "inbound");
      ("voiceOnly", JBool true);
      ("crmActivityObjectType", jstr "engagement");
      ("subjectTemplate", jstr "Interaction from {{ani}} to {{dnis}}");
      ("associations", JArray [jstr "contact"]);
      ("matchingStrategy", JArray [jstr "ani_phone_match"]);
      ("phoneNormalization", jstr "us_e164");
      ("contextFields",
        JArray [jstr "contact.fullName"; jstr "company.name";
                jstr "contact.email"; jstr "stats.openDeals"]);
      ("contextPlacement", jstr "interaction_tab");
      ("ownerStrategy", jstr "map_agent_email");
      ("storeCallId", JBool true);
      ("callIdField", jstr "interaction_id");
      ("expectedVolume", jstr "100_1000");
      ("idempotencyKey", jstr "interactionId");
      ("latencyTarget", jstr "under_2s");
      ("dataSensitivity", jstr "pii");
      ("logging", jstr "mask_pii") ]%string.

(** Example inputs: the defaults with a few properties changed. *)

(** Stale companion values next to options that do not use them. *)
Definition stray_values : object :=
  with_prop "otherCrmName" (jstr "Homegrown")
    (with_prop "ownerStrategy" (jstr "unassigned")
       (with_prop "fixedOwner" (jstr "queue-7")
          (with_prop "externalIdField" (jstr "customer_ref")
             (with_prop "storeCallId" (JBool false) defaultValues)))).

(** External-ID matching with its field, padded with blanks. *)
Definition external_id_values : object :=
  with_prop "matchingStrategy" (JArray [jstr "external_id"])
    (with_prop "externalIdField" (jstr " customer_ref ") defaultValues).

(** A contact center outside the list. *)
Definition other_contact_center_values : object :=
  with_prop "contactCenter" (jstr "other")
    (with_prop "otherContactCenterName" (jstr "Acme Voice")
       (with_prop "voiceOnly" (JBool false) defaultValues)).

(** Regulated data, with the default logging mode ([mask_pii]). *)
Definition regulated_values : object :=
  with_prop "dataSensitivity" (jstr "regulated")
    (with_prop "agentWorkspace" (jstr "unknown") defaultValues).

(** No [callIdField] at all, and the interaction id not stored. *)
Definition no_call_id_values : object :=
  with_prop "callIdField" JUndefined
    (with_prop "storeCallId" (JBool false) defaultValues).

(** An empty [callIdField], and the interaction id not stored. *)
Definition empty_call_id_values : object :=
  with_prop "callIdField" (JString [])
    (with_prop "storeCallId" (JBool false) defaultValues).

(** The custom context fields of the specification's example. *)
Definition custom_fields_values : object :=
  with_prop "customContextFields" (jstr " a, ,b ,") defaultValues.

(** A form the validator would not let through: an environment outside
    the enum, next to an unknown workspace and regulated data. *)
Definition unvalidated_form : IntakeForm.t :=
  IntakeForm.Build
    (lit "feedback_only") (lit "hubspot") None (lit "ringcentral") None
    (lit "unknown") (lit "production") (lit "inbound") true
    (lit "engagement") (lit "Interaction") [lit "contact"]
    [lit "ani_phone_match"] (lit "us_e164") None [lit "contact.email"] None
    (lit "sidebar") (lit "unassigned") None false (lit "interaction_id")
    (lit "lt_100") (lit "interactionId") (lit "best_effort")
    (lit "regulated") (lit "mask_pii").

(** Regulated data with [mask_pii], and no [callIdField]. *)
Definition regulated_no_call_id_values : object :=
  with_prop "callIdField" JUndefined regulated_values.

(** Regulated data with [mask_pii], and a subject template of four
    code units. *)
Definition regulated_short_subject_values : object :=
  with_prop "subjectTemplate" (jstr "Call") regulated_values.

(** Another CRM, named by blanks only. *)
Definition blank_crm_name_values : object :=
  with_prop "crm" (jstr "other")
    (with_prop "otherCrmName" (jstr "   ") defaultValues).

(** ** What a validated form looks like

    The rules of [IntakeSchema] (src/app/page.tsx, lines 22-119) read as
    a predicate on the parsed form: enum members, the length and
    non-emptiness rules, what [.trim()] leaves, and the cross-field
    rules. *)

(** A string with no whitespace at either end. *)
Definition is_trimmed (s : jsstring) : Prop :=
  (∀ c, head s = Some c → is_ws c = false)
  ∧ (∀ c, last s = Some c → is_ws c = false).

Definition opt_trimmed (o : option jsstring) : Prop :=
  ∀ s, o = Some s → is_trimmed s.

Definition one_of (values : list string) (s : jsstring) : Prop :=
  s ∈ map lit values.

Record valid_form (f : IntakeForm.t) : Prop := {
  valid_mode : IntakeForm.mode f = lit "feedback_only";
  valid_crm : one_of ["hubspot"; "salesforce"; "other"] (IntakeForm.crm f);
  valid_otherCrmName : opt_trimmed (IntakeForm.otherCrmName f);
  valid_contactCenter :
    one_of ["ringcentral"; "five9"; "genesys"; "nice"; "other"]
      (IntakeForm.contactCenter f);
  valid_otherContactCenterName :
    opt_trimmed (IntakeForm.otherContactCenterName f);
  valid_agentWorkspace :
    one_of ["native_ccp_desktop"; "embedded_crm_panel"; "custom_workspace";
            "hybrid_workspace"; "unknown"] (IntakeForm.agentWorkspace f);
  valid_environment : one_of ["sandbox"; "demo"] (IntakeForm.environment f);
  valid_direction :
    one_of ["inbound"; "outbound"; "both"] (IntakeForm.direction f);
  valid_crmActivityObjectType :
    one_of ["engagement"; "task"; "note"] (IntakeForm.crmActivityObjectType f);
  valid_subjectTemplate : 5 ≤ length (IntakeForm.subjectTemplate f);
  valid_associations :
    IntakeForm.associations f ≠ []
    ∧ Forall (one_of ["contact"; "company"; "deal"]) (IntakeForm.associations f);
  valid_matchingStrategy :
    IntakeForm.matchingStrategy f ≠ []
    ∧ Forall (one_of ["ani_phone_match"; "external_id"])
        (IntakeForm.matchingStrategy f);
  valid_phoneNormalization :
    one_of ["us_e164"; "as_is"; "other"] (IntakeForm.phoneNormalization f);
  valid_externalIdField : opt_trimmed (IntakeForm.externalIdField f);
  valid_contextFields : IntakeForm.contextFields f ≠ [];
  valid_customContextFields : opt_trimmed (IntakeForm.customContextFields f);
  valid_contextPlacement :
    one_of ["interaction_tab"; "sidebar"; "unknown"]
      (IntakeForm.contextPlacement f);
  valid_ownerStrategy :
    one_of ["map_agent_email"; "fixed_owner"; "unassigned"]
      (IntakeForm.ownerStrategy f);
  valid_fixedOwner : opt_trimmed (IntakeForm.fixedOwner f);
  valid_callIdField : is_trimmed (IntakeForm.callIdField f);
  valid_expectedVolume :
    one_of ["lt_100"; "100_1000"; "1000_10000"; "gt_10000"]
      (IntakeForm.expectedVolume f);
  valid_idempotencyKey : is_trimmed (IntakeForm.idempotencyKey f);
  valid_latencyTarget :
    one_of ["best_effort"; "under_2s"; "under_500ms"]
      (IntakeForm.latencyTarget f);
  valid_dataSensitivity :
    one_of ["low"; "pii"; "regulated"] (IntakeForm.dataSensitivity f);
  valid_logging :
    one_of ["mask_pii"; "no_payload_logging"] (IntakeForm.logging f);
  valid_other_crm :
    IntakeForm.crm f = lit "other" →
    ∃ s, IntakeForm.otherCrmName f = Some s ∧ s ≠ [];
  valid_other_contactCenter :
    IntakeForm.contactCenter f = lit "other" →
    ∃ s, IntakeForm.otherContactCenterName f = Some s ∧ s ≠ [];
  valid_external_id :
    lit "external_id" ∈ IntakeForm.matchingStrategy f →
    ∃ s, IntakeForm.externalIdField f = Some s ∧ s ≠ [];
  valid_fixed_owner :
    IntakeForm.ownerStrategy f = lit "fixed_owner" →
    ∃ s, IntakeForm.fixedOwner f = Some s ∧ s ≠ [];
  valid_regulated :
    IntakeForm.dataSensitivity f = lit "regulated" →
    IntakeForm.logging f = lit "no_payload_logging";
}.

(** The parsed form as the JavaScript object it is ([parsed.data]): an
    optional property without value is absent. *)
Definition opt_value (o : option jsstring) : jsval :=
  match o with Some s => JString s | None => JUndefined end.

Definition form_object (f : IntakeForm.t) : object :=
  object_of
    [ ("mode", JString (IntakeForm.mode f));
      ("crm", JString (IntakeForm.crm f));
      ("otherCrmName", opt_value (IntakeForm.otherCrmName f));
      ("contactCenter", JString (IntakeForm.contactCenter f));
      ("otherContactCenterName",
        opt_value (IntakeForm.otherContactCenterName f));
      ("agentWorkspace", JString (IntakeForm.agentWorkspace f));
      ("environment", JString (IntakeForm.environment f));
      ("direction", JString (IntakeForm.direction f));
      ("voiceOnly", JBool (IntakeForm.voiceOnly f));
      ("crmActivityObjectType", JString (IntakeForm.crmActivityObjectType f));
      ("subjectTemplate", JString (IntakeForm.subjectTemplate f));
      ("associations", JArray (JString <$> IntakeForm.associations f));
      ("matchingStrategy", JArray (JString <$> IntakeForm.matchingStrategy f));
      ("phoneNormalization", JString (IntakeForm.phoneNormalization f));
      ("externalIdField", opt_value (IntakeForm.externalIdField f));
      ("contextFields", JArray (JString <$> IntakeForm.contextFields f));
      ("customContextFields", opt_value (IntakeForm.customContextFields f));
      ("contextPlacement", JString (IntakeForm.contextPlacement f));
      ("ownerStrategy", JString (IntakeForm.ownerStrategy f));
      ("fixedOwner", opt_value (IntakeForm.fixedOwner f));
      ("storeCallId", JBool (IntakeForm.storeCallId f));
      ("callIdField", JString (IntakeForm.callIdField f));
      ("expectedVolume", JString (IntakeForm.expectedVolume f));
      ("idempotencyKey", JString (IntakeForm.idempotencyKey f));
      ("latencyTarget", JString (IntakeForm.latencyTarget f));
      ("dataSensitivity", JString (IntakeForm.dataSensitivity f));
      ("logging", JString (IntakeForm.logging f)) ]%string.

(** The properties of the schema that are enums (or, for [mode], a
    literal), with the values each admits. *)
Definition enum_properties : list (string * list string) :=
  [ ("mode", ["feedback_only"]);
    ("crm", ["hubspot"; "salesforce"; "other"]);
    ("contactCenter", ["ringcentral"; "five9"; "genesys"; "nice"; "other"]);
    ("agentWorkspace",
      ["native_ccp_desktop"; "embedded_crm_panel"; "custom_workspace";
       "hybrid_workspace"; "unknown"]);
    ("environment", ["sandbox"; "demo"]);
    ("direction", ["inbound"; "outbound"; "both"]);
    ("crmActivityObjectType", ["engagement"; "task"; "note"]);
    ("phoneNormalization", ["us_e164"; "as_is"; "other"]);
    ("contextPlacement", ["interaction_tab"; "sidebar"; "unknown"]);
    ("ownerStrategy", ["map_agent_email"; "fixed_owner"; "unassigned"]);
    ("expectedVolume", ["lt_100"; "100_1000"; "1000_10000"; "gt_10000"]);
    ("latencyTarget", ["best_effort"; "under_2s"; "under_500ms"]);
    ("dataSensitivity", ["low"; "pii"; "regulated"]);
    ("logging", ["mask_pii"; "no_payload_logging"]) ]%string.

(** A companion value that the cross-field rules count as missing: no
    value, or a string that is empty once trimmed. *)
Definition blank (v : jsval) : Prop :=
  v = JUndefined ∨ ∃ raw, v = JString raw ∧ trim raw = [].

(** The validation of [data] fails and its error holds the issue [i]. *)
Definition reports (data : object) (i : issue) : Prop :=
  ∃ iss, safeParse data = ParseError iss ∧ i ∈ iss.

(** ** The blueprint summary page (src/app/blueprint/[id]/page.tsx)

    The page reads a stored document, a JSON value. *)

(** [v?.k]: the property [k] of [v]; [undefined] when [v] is not an
    object or lacks it (none of the names read below is a built-in
    property of strings or arrays). *)
Definition get (v : jsval) (k : string) : jsval :=
  match v with
  | JObject props =>
      default JUndefined (snd <$> List.find (λ kv, String.eqb kv.1 k) props)
  | _ => JUndefined
  end.

(** [Boolean(v)]. *)
Definition truthy (v : jsval) : bool :=
  match v with
  | JUndefined | JNull => false
  | JBool b => b
  | JNumber n => negb (n =? 0)%Z
  | JString s => truthy_str s
  | JArray _ | JObject _ => true
  end.

(** [v === s] for a string literal [s]. *)
Definition is_str (v : jsval) (s : string) : bool :=
  match v with JString t => str_eqb t (lit s) | _ => false end.

(** [values.includes(s)] for a string literal [s]. *)
Definition includes (values : list jsval) (s : string) : bool :=
  existsb (λ v, is_str v s) values.

(** [segs.join(sep)] for a separator of any length. *)
Fixpoint join_str (sep : jsstring) (segs : list jsstring) : jsstring :=
  match segs with
  | [] => []
  | [seg] => seg
  | seg :: rest => seg ++ sep ++ join_str sep rest
  end.

Module BlueprintPage.
Section display.

(** How the engine prints a number, and [JSON.stringify] on an object:
    both are the engine's, and the page's own logic does not depend on
    them. *)
Variable Number_toString : Z → jsstring.
Variable JSON_stringify : jsval → jsstring.

(** [String(v)], and with it what a template literal and [join] make of
    a value: inside [join], [null] and [undefined] print as nothing. *)
Fixpoint to_string (v : jsval) : jsstring :=
  match v with
  | JUndefined => lit "undefined"
  | JNull => lit "null"
  | JBool true => lit "true"
  | JBool false => lit "false"
  | JNumber n => Number_toString n
  | JString s => s
  | JArray xs =>
      join_str (lit ",")
        (List.map (λ x, match x with
                        | JUndefined | JNull => []
                        | _ => to_string x
                        end) xs)
  | JObject _ => lit "[object Object]"
  end.

(** [xs.join(sep)] on an array of values. *)
Definition array_join (sep : jsstring) (xs : list jsval) : jsstring :=
  join_str sep
    (List.map (λ x, match x with
                    | JUndefined | JNull => []
                    | _ => to_string x
                    end) xs).

(** [formatValue] (lines 7-12). *)
Definition formatValue (value : jsval) : jsstring :=
  match value with
  | JNull | JUndefined => lit "N/A"
  | JArray xs =>
      if (length xs =? 0)%nat then lit "N/A" else array_join (lit ", ") xs
  | JObject _ => JSON_stringify value
  | _ => to_string value
  end.

(** [toMatchingLabel] (lines 62-71): a [switch] on the value. *)
Definition toMatchingLabel (value : jsval) : jsval :=
  if is_str value "ani_phone_match"
  then jstr "Match by customer phone number"
  else if is_str value "external_id"
  then jstr "Match by external customer ID"
  else value.

(** [toOwnerStrategyLabel] (lines 73-84). *)
Definition toOwnerStrategyLabel (value : jsval) : jsval :=
  if is_str value "map_agent_email"
  then jstr "Assign to the agent who handled the interaction"
  else if is_str value "fixed_owner"
  then jstr "Always assign to a fixed CRM owner or queue"
  else if is_str value "unassigned"
  then jstr "Leave CRM activity unassigned"
  else value.

(** [toCustomerMatchingLine] (lines 86-106). *)
Definition toCustomerMatchingLine (strategy : jsval) : jsstring :=
  if negb (truthy strategy)
     || match strategy with
        | JArray xs => (length xs =? 0)%nat
        | _ => false
        end
  then lit "Not specified"
  else
    let values :=
      match strategy with JArray xs => xs | _ => [strategy] end in
    let hasPhone := includes values "ani_phone_match" in
    let hasExternal := includes values "external_id" in
    if hasPhone && hasExternal
    then lit "Phone number and external customer ID -> CRM contact"
    else if hasExternal
    then lit "External customer ID -> CRM contact"
    else if hasPhone
    then lit "Phone number -> CRM contact"
    else array_join (lit ", ") (List.map toMatchingLabel values).

(** The [systems] memo (lines 128-144). *)
Record systems_t : Type := Systems {
  crm : jsval;
  contactCenter : jsval;
  agentWorkspace : jsval;
}.

Definition systems (data : jsval) : systems_t :=
  Systems
    (pickFirst [get (get data "systems") "crm"; get data "crm"])
    (pickFirst [get (get data "systems") "contactCenterPlatform";
                get (get data "systems") "contactCenter";
                get data "contactCenterPlatform";
                get data "contactCenter"])
    (pickFirst [get (get data "systems") "agentWorkspace";
                get (get data "systems") "agentDesktop";
                get data "agentWorkspace";
                get data "agentDesktop"]).

(** The [ownership] memo (lines 146-156). *)
Record ownership_t : Type := Ownership {
  ownerStrategy : jsval;
  interactionIdField : jsval;
}.

Definition ownership (data : jsval) : ownership_t :=
  Ownership
    (pickFirst [get (get data "ownership") "ownerStrategy";
                get data "ownerStrategy"])
    (pickFirst [get (get data "ownership") "interactionIdField";
                get (get data "ownership") "callIdField";
                get data "interactionIdField";
                get data "callIdField"]).

(** The [duplicatePreventionKey] memo (lines 158-160). *)
Definition duplicatePreventionKey (data : jsval) : jsval :=
  pickFirst [get (get data "reliability") "idempotencyKey";
             interactionIdField (ownership data)].

(** The [operationalGuarantees] memo (lines 162-193): the sentences
    pushed, in order. *)
Definition operationalGuarantees (data : jsval) : list jsval :=
  let guarantees : list jsval := [] in
  let idempotencyKey := get (get data "reliability") "idempotencyKey" in
  let latencyTarget := get (get data "reliability") "latencyTarget" in
  let expectedVolume := get (get data "reliability") "expectedVolume" in
  let logging := get (get data "security") "logging" in
  let guarantees :=
    if truthy idempotencyKey
    then guarantees
         ++ [JString (lit "Uses duplicate prevention key "
                      ++ to_string idempotencyKey
                      ++ lit " to avoid double-logging the same interaction")]
    else guarantees in
  let guarantees :=
    if truthy (get (get data "trigger") "event") || truthy latencyTarget
    then
      let target :=
        if truthy latencyTarget
        then lit " (target: " ++ to_string latencyTarget ++ lit ")"
        else [] in
      guarantees
      ++ [JString (lit "Agent context appears on interaction acceptance"
                   ++ target)]
    else guarantees in
  let guarantees :=
    if is_str expectedVolume "100_1000" || is_str expectedVolume "1000_10000"
       || is_str expectedVolume "gt_10000" || is_str latencyTarget "under_2s"
       || is_str latencyTarget "under_500ms"
    then guarantees
         ++ [jstr "Built for higher volume with asynchronous processing and retry-safe behavior"]
    else guarantees in
  let guarantees :=
    if is_str logging "mask_pii"
    then guarantees ++ [jstr "PII is masked in logs"]
    else if is_str logging "no_payload_logging"
    then guarantees ++ [jstr "No payload logging"]
    else guarantees in
  let guarantees :=
    if truthy (ownerStrategy (ownership data))
    then guarantees ++ [toOwnerStrategyLabel (ownerStrategy (ownership data))]
    else guarantees in
  guarantees.

(** The lines of the page that are computed in place (lines 300, 310). *)
Definition ownershipRuleLine (data : jsval) : jsval :=
  if truthy (ownerStrategy (ownership data))
  then toOwnerStrategyLabel (ownerStrategy (ownership data))
  else jstr "N/A".

Definition duplicatePreventionLine (data : jsval) : jsstring :=
  if truthy (duplicatePreventionKey data)
  then to_string (duplicatePreventionKey data)
       ++ lit " -> intended to avoid double-logging the same interaction"
  else lit "Not specified".

(** The values the page prints through [formatValue] (lines 260-322), in
    page order. *)
Definition formattedValues (data : jsval) : list jsstring :=
  [ formatValue (crm (systems data));
    formatValue (contactCenter (systems data));
    formatValue (agentWorkspace (systems data));
    formatValue (get (get data "trigger") "event");
    formatValue (get (get data "trigger") "channel");
    formatValue (get (get data "trigger") "direction");
    formatValue (get (get data "crmActivity") "objectType");
    formatValue (get (get data "crmActivity") "subjectTemplate");
    formatValue (get (get data "crmActivity") "associations");
    formatValue (pickFirst [get (get data "matching") "phoneNormalization";
                            get (get data "matching") "normalization"]);
    formatValue (get (get data "matching") "externalIdField");
    formatValue (interactionIdField (ownership data));
    formatValue (get (get data "reliability") "expectedVolume");
    formatValue (get (get data "reliability") "latencyTarget");
    formatValue (get (get data "security") "dataSensitivity");
    formatValue (get (get data "security") "logging") ].

End display.
End BlueprintPage.

(** The document of [buildNormalizedIntake] as the JSON value it is (the
    object literal of lines 147-196, its warnings read from the store):
    what the form page stores and the summary page reads back. *)
Definition nullable_json (v : nullable jsstring) : jsval :=
  match v with Null => JNull | Val s => JString s end.

Definition strings_json (l : list jsstring) : jsval := JArray (JString <$> l).

Definition document_json (d : Normalized.t (list jsstring)) : jsval :=
  JObject
    [ ("version", JString (Normalized.version d));
      ("mode", JString (Normalized.mode d));
      ("systems",
        JObject
          [ ("crm", JString (Normalized.crm (Normalized.systems d)));
            ("otherCrmName",
              nullable_json (Normalized.otherCrmName (Normalized.systems d)));
            ("contactCenter",
              JString (Normalized.contactCenter (Normalized.systems d)));
            ("otherContactCenterName",
              nullable_json
                (Normalized.otherContactCenterName (Normalized.systems d)));
            ("agentWorkspace",
              JString (Normalized.agentWorkspace (Normalized.systems d)));
            ("environment",
              JString (Normalized.environment (Normalized.systems d))) ]);
      ("trigger",
        JObject
          [ ("event", JString (Normalized.event (Normalized.trigger d)));
            ("interactionType",
              JString (Normalized.interactionType (Normalized.trigger d)));
            ("direction",
              JString (Normalized.direction (Normalized.trigger d))) ]);
      ("crmActivity",
        JObject
          [ ("objectType",
              JString (Normalized.objectType (Normalized.crmActivity d)));
            ("subjectTemplate",
              JString (Normalized.subjectTemplate (Normalized.crmActivity d)));
            ("associations",
              strings_json
                (Normalized.associations (Normalized.crmActivity d))) ]);
      ("matching",
        JObject
          [ ("strategy",
              strings_json (Normalized.strategy (Normalized.matching d)));
            ("phoneNormalization",
              JString (Normalized.phoneNormalization (Normalized.matching d)));
            ("externalIdField",
              nullable_json
                (Normalized.externalIdField (Normalized.matching d))) ]);
      ("contextInjection",
        JObject
          [ ("fields",
              strings_json
                (Normalized.fields (Normalized.contextInjection d)));
            ("customFields",
              strings_json
                (Normalized.customFields (Normalized.contextInjection d)));
            ("placement",
              JString (Normalized.placement (Normalized.contextInjection d))) ]);
      ("ownership",
        JObject
          [ ("ownerStrategy",
              JString (Normalized.ownerStrategy (Normalized.ownership d)));
            ("fixedOwner",
              nullable_json (Normalized.fixedOwner (Normalized.ownership d)));
            ("storeInteractionId",
              JBool (Normalized.storeInteractionId (Normalized.ownership d)));
            ("interactionIdField",
              nullable_json
                (Normalized.interactionIdField (Normalized.ownership d))) ]);
      ("reliability",
        JObject
          [ ("expectedVolume",
              JString (Normalized.expectedVolume (Normalized.reliability d)));
            ("idempotencyKey",
              JString (Normalized.idempotencyKey (Normalized.reliability d)));
            ("latencyTarget",
              JString (Normalized.latencyTarget (Normalized.reliability d))) ]);
      ("security",
        JObject
          [ ("dataSensitivity",
              JString (Normalized.dataSensitivity (Normalized.security d)));
            ("logging", JString (Normalized.logging (Normalized.security d))) ]);
      ("warnings", strings_json (Normalized.warnings d)) ]%string.

(** ** The steps of the form page (src/app/page.tsx, lines 254-264) *)

Record step_t : Type := Step {
  title : string;
  fields : list string;
}.

(** The [steps] table (lines 254-264). *)
Definition steps : list step_t :=
  [ Step "Systems"
      ["crm"; "otherCrmName"; "contactCenter"; "otherContactCenterName";
       "agentWorkspace"; "environment"];
    Step "Trigger" ["direction"; "voiceOnly"];
    Step "CRM Activity"
      ["crmActivityObjectType"; "subjectTemplate"; "associations"];
    Step "Matching" ["matchingStrategy"; "phoneNormalization"; "externalIdField"];
    Step "Context Injection"
      ["contextFields"; "customContextFields"; "contextPlacement"];
    Step "Ownership & Audit"
      ["ownerStrategy"; "fixedOwner"; "storeCallId"; "callIdField"];
    Step "Reliability" ["expectedVolume"; "idempotencyKey"; "latencyTarget"];
    Step "Security" ["dataSensitivity"; "logging"];
    Step "Review & Submit" [] ]%string.

(** ** The intake route (the [POST] handler, lines 371-423 of
    src/app/blueprint/[id]/page.tsx)

    The handler reads the request body, checks the two environment
    variables, sends one email and answers; whatever is thrown on the way
    is caught and answered with status 500. *)

(** The outcome of a call that may throw. *)
Inductive outcome (A : Type) : Type :=
  | Returned (a : A)
  | Thrown (e : jsval).
Arguments Returned {A} a.
Arguments Thrown {A} e.

(** [new Error(message)], as far as the handler reads it. *)
Definition Error (message : string) : jsval :=
  JObject [("message"%string, JString (lit message))].

(** [a ?? b]. *)
Definition nullish (a b : jsval) : jsval :=
  match a with
  | JUndefined | JNull => b
  | _ => a
  end.

Module IntakeRoute.

Record env_t : Type := Env {
  RESEND_API_KEY : option jsstring;
  INTAKE_RECEIVER_EMAIL : option jsstring;
}.

Record email_t : Type := Email {
  from : jsstring;
  to : option jsstring;
  subject : jsstring;
  text : jsstring;
}.

Record response_t : Type := Response {
  status : Z;
  json : jsval;
}.

#[local] Infix "??" := nullish (at level 65, right associativity).

(** The six values of the email's summary (lines 387-392). *)
Definition crm (body : jsval) : jsval :=
  get (get body "systems") "crm" ?? get body "crm"
  ?? JString (lit "N/A").

Definition contactCenter (body : jsval) : jsval :=
  get (get body "systems") "contactCenterPlatform"
  ?? get (get body "systems") "contactCenter"
  ?? get body "contactCenterPlatform"
  ?? get body "contactCenter"
  ?? JString (lit "N/A").

Definition agentWorkspace (body : jsval) : jsval :=
  get (get body "systems") "agentWorkspace" ?? get body "agentWorkspace"
  ?? JString (lit "N/A").

Definition triggerEvent (body : jsval) : jsval :=
  get (get body "trigger") "event" ?? get body "triggerEvent"
  ?? JString (lit "N/A").

Definition triggerChannel (body : jsval) : jsval :=
  get (get body "trigger") "channel" ?? get body "channel"
  ?? JString (lit "N/A").

Definition triggerDirection (body : jsval) : jsval :=
  get (get body "trigger") "direction" ?? get body "direction"
  ?? JString (lit "N/A").

Section handler.

(** [JSON.stringify(v)] and [JSON.stringify(v, null, 2)] are the
    engine's. *)
Variable JSON_stringify : jsval → jsstring.
Variable JSON_stringify_indented : jsval → jsstring.

(** [typeof v === "string" ? v : JSON.stringify(v)]. *)
Definition shown (v : jsval) : jsstring :=
  match v with
  | JString s => s
  | _ => JSON_stringify v
  end.

(** The text of the email (lines 394-406): the lines joined by a line
    feed. *)
Definition email_text (body : jsval) : jsstring :=
  join_str [10%N]
    [ lit "New CRM <-> Contact Center Intake";
      [];
      lit "CRM: " ++ shown (crm body);
      lit "Contact Center Platform: " ++ shown (contactCenter body);
      lit "Agent Workspace: " ++ shown (agentWorkspace body);
      lit "Trigger event: " ++ shown (triggerEvent body);
      lit "Trigger channel: " ++ shown (triggerChannel body);
      lit "Trigger direction: " ++ shown (triggerDirection body);
      [];
      lit "Full intake JSON:";
      JSON_stringify_indented body ].

(** The [try] block (lines 372-417), with the emails handed to
    [resend.emails.send]: [request_json] is the outcome of [req.json()]
    and [send] that of sending. The [Resend] client is built from a key
    that is not empty. *)
Definition attempt (env : env_t) (request_json : outcome jsval)
    (send : email_t → outcome unit) : outcome response_t * list email_t :=
  match request_json with
  | Thrown e => (Thrown e, [])
  | Returned body =>
      let apiKey := RESEND_API_KEY env in
      let receiver := INTAKE_RECEIVER_EMAIL env in
      if negb (truthy_opt apiKey)
      then (Thrown (Error "Missing RESEND_API_KEY"), [])
      else if negb (truthy_opt receiver)
      then (Thrown (Error "Missing INTAKE_RECEIVER_EMAIL"), [])
      else
        let mail :=
          Email (lit "Micro-SI Intake <onboarding@resend.dev>")
                receiver
                (lit "New CRM <-> Contact Center Intake Received")
                (email_text body) in
        match send mail with
        | Thrown e => (Thrown e, [mail])
        | Returned _ =>
            (Returned
               (Response 200
                  (JObject
                     [ ("ok"%string, JBool true);
                       ("message"%string,
                         JString (lit "Thanks - intake received.")) ])),
             [mail])
        end
  end.

(** The [catch] block (lines 418-423). *)
Definition failed (e : jsval) : response_t :=
  Response 500
    (JObject
       [ ("ok"%string, JBool false);
         ("error"%string,
           if truthy (get e "message") then get e "message"
           else JString (lit "Failed to send intake email")) ]).

(** [POST]: the response, and the emails handed to the mail service. *)
Definition POST (env : env_t) (request_json : outcome jsval)
    (send : email_t → outcome unit) : response_t * list email_t :=
  match attempt env request_json send with
  | (Returned response, sent) => (response, sent)
  | (Thrown e, sent) => (failed e, sent)
  end.

End handler.
End IntakeRoute.

(** ** The checkbox groups of the form page (src/app/page.tsx, lines
    505-510, 540-545 and 592-597)

    A [Set] of strings holds its members once each, in insertion order;
    [Array.from] reads them in that order. *)
Module JsSet.

Definition add (s : list jsstring) (a : jsstring) : list jsstring :=
  if bool_decide (a ∈ s) then s else s ++ [a].

Definition delete (s : list jsstring) (a : jsstring) : list jsstring :=
  filter (λ b, b ≠ a) s.

(** [new Set(values)]. *)
Definition of_array (values : list jsstring) : list jsstring :=
  foldl add [] values.

End JsSet.

(** The [onChange] handler of the checkbox of option [a]: the array the
    form value is set to, from the state of the box and the current
    value ([values.associations], [values.matchingStrategy],
    [values.contextFields]). *)
Definition onChange (checked : bool) (a : jsstring)
    (values : option (list jsstring)) : list jsstring :=
  let next := JsSet.of_array (default [] values) in
  let next := if checked then JsSet.add next a else JsSet.delete next a in
  next.

Section string_lemmas.

Lemma split_nonempty sep s : split sep s ≠ [].
Proof.
  destruct s as [|c r]; simpl; [done|].
  destruct (c =? sep)%N; [done|]. by destruct (split sep r).
Qed.

Lemma join_cons sep seg segs :
  segs ≠ [] → join sep (seg :: segs) = seg ++ sep :: join sep segs.
Proof. by destruct segs. Qed.

Lemma join_split sep s : join sep (split sep s) = s.
Proof.
  induction s as [|c r IH]; simpl; [done|].
  destruct (N.eqb_spec c sep) as [->|Hne].
  - rewrite join_cons by apply split_nonempty. simpl. by rewrite IH.
  - pose proof (split_nonempty sep r) as Hr.
    destruct (split sep r) as [|seg segs]; [done|].
    destruct segs as [|seg' segs]; simpl in *; by rewrite <- IH.
Qed.

Lemma split_no_sep sep s : Forall (λ seg, sep ∉ seg) (split sep s).
Proof.
  induction s as [|c r IH]; simpl.
  - constructor; [|constructor]. by intros ?%elem_of_nil.
  - destruct (N.eqb_spec c sep) as [->|Hne].
    + constructor; [|done]. by intros ?%elem_of_nil.
    + destruct (split sep r) as [|seg segs].
      * constructor; [|constructor].
        intros [->|[]%elem_of_nil]%elem_of_cons. done.
      * inversion IH as [|? ? Hseg Hsegs]; subst.
        constructor; [|done].
        intros [->|?]%elem_of_cons; done.
Qed.

Lemma trim_start_spec s :
  ∃ pre, s = pre ++ trim_start s ∧ Forall (λ c, is_ws c = true) pre.
Proof.
  induction s as [|c r (pre & Hr & Hpre)]; simpl.
  - by exists [].
  - destruct (is_ws c) eqn:Hc.
    + exists (c :: pre). split; [by rewrite <- app_comm_cons, <- Hr|].
      by constructor.
    + by exists [].
Qed.

Lemma trim_start_head s c : head (trim_start s) = Some c → is_ws c = false.
Proof.
  induction s as [|d r IH]; simpl; [done|].
  destruct (is_ws d) eqn:Hd; [done|]. simpl. by intros [= <-].
Qed.

Lemma trim_end_spec s :
  ∃ post, s = trim_end s ++ post ∧ Forall (λ c, is_ws c = true) post.
Proof.
  unfold trim_end.
  destruct (trim_start_spec (reverse s)) as (pre & Hs & Hpre).
  exists (reverse pre). split.
  - rewrite <- reverse_app, <- Hs. by rewrite reverse_involutive.
  - by apply Forall_reverse.
Qed.

Lemma trim_end_last s c : last (trim_end s) = Some c → is_ws c = false.
Proof.
  unfold trim_end. rewrite last_reverse. apply trim_start_head.
Qed.

(** Stripping the end of a string keeps its first code unit, unless
    nothing is left. *)
Lemma trim_end_head s c :
  head s = Some c → is_ws c = false → head (trim_end s) = Some c.
Proof.
  intros Hhd Hc.
  destruct (trim_end_spec s) as (post & Hs & Hpost).
  destruct (trim_end s) as [|d t] eqn:Ht.
  - simpl in Hs. subst s. destruct post as [|e post]; [done|].
    simpl in Hhd. injection Hhd as ->.
    inversion Hpost; subst. congruence.
  - rewrite Hs in Hhd. simpl in *. done.
Qed.

Lemma trim_spec seg : is_trimmed_of seg (trim seg).
Proof.
  unfold trim.
  destruct (trim_start_spec seg) as (pre & Hpre & Hws1).
  destruct (trim_end_spec (trim_start seg)) as (post & Hpost & Hws2).
  split; [|split].
  - exists pre, post. split; [|done]. by rewrite <- Hpost.
  - intros c Hc.
    destruct (trim_start seg) as [|d t] eqn:Ht.
    + by vm_compute in Hc.
    + assert (is_ws d = false) as Hd.
      { apply (trim_start_head seg). by rewrite Ht. }
      rewrite (trim_end_head (d :: t) d) in Hc by done. congruence.
  - apply trim_end_last.
Qed.

Lemma Forall2_map_rel {A B} (R : A → B → Prop) (f : A → B) (l : list A) :
  (∀ x, R x (f x)) → Forall2 R l (map f l).
Proof. intros HR. induction l; simpl; constructor; auto. Qed.

End string_lemmas.

(** ** The schema combinators are well-behaved *)

Create HintDb zod.

Section schema_lemmas.

Lemma z_string_wf : schema_wf z_string.
Proof.
  intros p v. destruct v; simpl; (split; [|done]);
    repeat constructor; done.
Qed.

Lemma z_boolean_wf : schema_wf z_boolean.
Proof.
  intros p v. destruct v; simpl; (split; [|done]);
    repeat constructor; done.
Qed.

Lemma z_enum_wf values : schema_wf (z_enum values).
Proof.
  intros p v. destruct v; simpl; try case_bool_decide; simpl;
    (split; [|done]); repeat constructor; done.
Qed.

Lemma z_literal_wf value : schema_wf (z_literal value).
Proof.
  intros p v. unfold z_literal.
  destruct v; simpl; try destruct (str_eqb _ _); simpl;
    (split; [|done]); repeat constructor; done.
Qed.

Lemma z_trim_wf inner : schema_wf inner → schema_wf (z_trim inner).
Proof.
  intros Hin p v. unfold z_trim. specialize (Hin p v).
  destruct (inner p v) as [iss [s|]]; simpl in *; [|done].
  split; [apply Hin|done].
Qed.

Lemma z_min_wf n msg inner : schema_wf inner → schema_wf (z_min n msg inner).
Proof.
  intros Hin p v. unfold z_min. specialize (Hin p v).
  destruct (inner p v) as [iss [s|]]; simpl in *; [|done].
  destruct (length s <? n)%nat; simpl; (split; [|done]); [|apply Hin].
  apply Forall_app. split; [apply Hin|]. repeat constructor; done.
Qed.

Lemma z_optional_wf {A} (inner : schema A) :
  schema_wf inner → schema_wf (z_optional inner).
Proof.
  intros Hin p v. unfold z_optional. specialize (Hin p v).
  destruct v; simpl.
  { split; [constructor|intros [=]]. }
  all: destruct (inner p _) as [iss [a|]]; simpl in *;
    (split; [apply Hin|]); first [by intros [=] | intros _; by apply Hin].
Qed.

(** The elements of an array, each parsed at its own index. *)
Lemma imap_elems_wf {A} (elem : schema A) p (f : nat → list pathseg) xs :
  schema_wf elem → (∀ i, p `prefix_of` f i) →
  let rs := imap (λ i x, elem (f i) x) xs in
  Forall (λ i, kind i ≠ custom ∧ p `prefix_of` path i) (concat (fst <$> rs))
  ∧ (mapM snd rs = None → concat (fst <$> rs) ≠ []).
Proof.
  intros Hel. revert f. induction xs as [|x xs IH]; intros f Hf; simpl.
  - split; [constructor|done].
  - destruct (IH (f ∘ S)) as [IH1 IH2]; [intros i; apply Hf|].
    destruct (Hel (f 0%nat) x) as [H1 H2]. split.
    + apply Forall_app. split; [|exact IH1].
      eapply Forall_impl; [exact H1|]. intros i [? ?]. split; [done|].
      by etrans; [apply Hf|].
    + destruct (elem (f 0%nat) x) as [iss [a|]]; simpl in *.
      * intros Hnone. intros [_ Hc]%app_eq_nil. revert Hc. apply IH2.
        by destruct (mapM _ _).
      * intros _ [Hc _]%app_eq_nil. by apply H2.
Qed.

Lemma z_array_min_wf {A} (elem : schema A) n msg :
  schema_wf elem → schema_wf (z_array_min elem n msg).
Proof.
  intros Hel p v. unfold z_array_min.
  destruct v; simpl; try (split; [|done]; repeat constructor; done).
  destruct (imap_elems_wf elem p (λ i, p ++ [PIndex i]) xs Hel) as [H1 H2].
  { intros i. by apply prefix_app_r. }
  split.
  - apply Forall_app. split; [|exact H1].
    destruct (length xs <? n)%nat; repeat constructor; done.
  - intros Hnone [_ Hc]%app_eq_nil. by apply H2.
Qed.

(** The issues of property [k] are reported on [k]. *)
Lemma prop_issues {A} k (s : schema A) data :
  schema_wf s →
  Forall (λ i, kind i ≠ custom ∧ keyed_to k i) (prop k s data).1.
Proof.
  intros Hs. unfold prop. destruct (Hs [PKey k] (data k)) as [H _].
  eapply Forall_impl; [exact H|]. intros i [Hk [rest Hp]].
  split; [done|]. unfold keyed_to. by rewrite Hp.
Qed.

Lemma prop_aborted {A} k (s : schema A) data :
  schema_wf s → (prop k s data).2 = None → (prop k s data).1 ≠ [].
Proof. intros Hs. unfold prop. apply Hs. Qed.

Lemma prop_with_prop_ne {A} k k' (s : schema A) v data :
  String.eqb k k' = false → prop k s (with_prop k' v data) = prop k s data.
Proof. intros Hk. unfold prop, with_prop. by rewrite Hk. Qed.

Lemma prop_with_prop_eq {A} k (s : schema A) v data :
  prop k s (with_prop k v data) = s [PKey k] v.
Proof. unfold prop, with_prop. by rewrite String.eqb_refl. Qed.

End schema_lemmas.

#[global] Hint Resolve z_string_wf z_boolean_wf z_enum_wf z_literal_wf
  z_trim_wf z_min_wf z_optional_wf z_array_min_wf : zod.

(** ** The object parse, property by property *)

Ltac solve_wf :=
  unfold CRM_ENUM, CONTACT_CENTER_ENUM, AGENT_WORKSPACE_ENUM,
    CRM_ACTIVITY_ENUM, OWNER_STRATEGY_ENUM, PHONE_NORM_ENUM,
    CONTEXT_PLACEMENT_ENUM, VOLUME_ENUM, LATENCY_ENUM, SENSITIVITY_ENUM,
    LOGGING_ENUM;
  solve [auto 10 with zod].

(** Replace every [prop k s data] of the goal by a pair of variables,
    keeping what well-formedness says about it. *)
Ltac abstract_props data :=
  repeat match goal with
  | |- context [prop ?k ?s data] =>
      let Hi := fresh "Hiss" in
      let Ha := fresh "Hab" in
      pose proof (prop_issues k s data ltac:(solve_wf)) as Hi;
      pose proof (prop_aborted k s data ltac:(solve_wf)) as Ha;
      revert Hi Ha; generalize (prop k s data);
      intros [? ?] Hi Ha; cbn [fst snd] in Hi, Ha
  end.

(** Split [l1 ++ ... ++ ln = []] into [li = []] and substitute. *)
Ltac split_nil H :=
  repeat (apply app_eq_nil in H; destruct H as [-> H]);
  try subst.

(** Walk down a chain of option binds that is known to succeed. *)
Ltac walk_binds H :=
  repeat match type of H with
  | mbind _ ?o = Some _ =>
      destruct o; cbn [mbind option_bind] in H; [|discriminate H]
  end.

Section parse_object_lemmas.

(** A parse without issue, read property by property. *)
Lemma parse_object_ok data val :
  parse_object data = ([], Some val) ↔
    prop "mode" (z_literal "feedback_only") data
      = ([], Some (IntakeForm.mode val))
    ∧ prop "crm" CRM_ENUM data = ([], Some (IntakeForm.crm val))
    ∧ prop "otherCrmName" (z_optional (z_trim z_string)) data
      = ([], Some (IntakeForm.otherCrmName val))
    ∧ prop "contactCenter" CONTACT_CENTER_ENUM data
      = ([], Some (IntakeForm.contactCenter val))
    ∧ prop "otherContactCenterName" (z_optional (z_trim z_string)) data
      = ([], Some (IntakeForm.otherContactCenterName val))
    ∧ prop "agentWorkspace" AGENT_WORKSPACE_ENUM data
      = ([], Some (IntakeForm.agentWorkspace val))
    ∧ prop "environment" (z_enum ["sandbox"; "demo"]) data
      = ([], Some (IntakeForm.environment val))
    ∧ prop "direction" (z_enum ["inbound"; "outbound"; "both"]) data
      = ([], Some (IntakeForm.direction val))
    ∧ prop "voiceOnly" z_boolean data
      = ([], Some (IntakeForm.voiceOnly val))
    ∧ prop "crmActivityObjectType" CRM_ACTIVITY_ENUM data
      = ([], Some (IntakeForm.crmActivityObjectType val))
    ∧ prop "subjectTemplate"
        (z_min 5 (Some subject_template_message) z_string) data
      = ([], Some (IntakeForm.subjectTemplate val))
    ∧ prop "associations"
        (z_array_min (z_enum ["contact"; "company"; "deal"]) 1
           (Some "Select at least one association")) data
      = ([], Some (IntakeForm.associations val))
    ∧ prop "matchingStrategy"
        (z_array_min (z_enum ["ani_phone_match"; "external_id"]) 1 None) data
      = ([], Some (IntakeForm.matchingStrategy val))
    ∧ prop "phoneNormalization" PHONE_NORM_ENUM data
      = ([], Some (IntakeForm.phoneNormalization val))
    ∧ prop "externalIdField" (z_optional (z_trim z_string)) data
      = ([], Some (IntakeForm.externalIdField val))
    ∧ prop "contextFields"
        (z_array_min z_string 1 (Some "Select at least one context field"))
        data
      = ([], Some (IntakeForm.contextFields val))
    ∧ prop "customContextFields" (z_optional (z_trim z_string)) data
      = ([], Some (IntakeForm.customContextFields val))
    ∧ prop "contextPlacement" CONTEXT_PLACEMENT_ENUM data
      = ([], Some (IntakeForm.contextPlacement val))
    ∧ prop "ownerStrategy" OWNER_STRATEGY_ENUM data
      = ([], Some (IntakeForm.ownerStrategy val))
    ∧ prop "fixedOwner" (z_optional (z_trim z_string)) data
      = ([], Some (IntakeForm.fixedOwner val))
    ∧ prop "storeCallId" z_boolean data
      = ([], Some (IntakeForm.storeCallId val))
    ∧ prop "callIdField" (z_trim z_string) data
      = ([], Some (IntakeForm.callIdField val))
    ∧ prop "expectedVolume" VOLUME_ENUM data
      = ([], Some (IntakeForm.expectedVolume val))
    ∧ prop "idempotencyKey" (z_trim z_string) data
      = ([], Some (IntakeForm.idempotencyKey val))
    ∧ prop "latencyTarget" LATENCY_ENUM data
      = ([], Some (IntakeForm.latencyTarget val))
    ∧ prop "dataSensitivity" SENSITIVITY_ENUM data
      = ([], Some (IntakeForm.dataSensitivity val))
    ∧ prop "logging" LOGGING_ENUM data
      = ([], Some (IntakeForm.logging val)).
Proof.
  split.
  - unfold parse_object. cbv zeta.
    repeat match goal with
    | |- context [prop ?k ?s data] =>
        generalize (prop k s data); intros [? ?]
    end.
    cbn [fst snd]. intros H. injection H as Hiss Hval.
    split_nil Hiss. walk_binds Hval.
    injection Hval as <-. cbn. repeat split.
  - intros H. unfold parse_object. cbv zeta.
    repeat match type of H with
    | _ ∧ _ => destruct H as [Hk H]; rewrite Hk; clear Hk
    end.
    rewrite H.
    cbn. by destruct val.
Qed.

(** The issues of the object parse come from the properties alone. *)
Lemma parse_object_issues data :
  Forall (λ i, kind i ≠ custom) (parse_object data).1.
Proof.
  unfold parse_object. cbv zeta. cbn [fst].
  repeat (apply Forall_app; split);
    (eapply Forall_impl; [apply prop_issues; solve_wf|]);
    by intros i [? _].
Qed.

(** An aborted object parse has raised an issue. *)
Lemma parse_object_aborted data :
  (parse_object data).2 = None → (parse_object data).1 ≠ [].
Proof.
  unfold parse_object. cbv zeta. abstract_props data. cbn [fst snd].
  intros Hnone Hnil. split_nil Hnil.
  repeat match type of Hnone with
  | mbind _ ?o = None =>
      destruct o; cbn [mbind option_bind] in Hnone;
      [|match goal with H : None = None → [] ≠ [] |- _ => by apply H end]
  end.
  discriminate Hnone.
Qed.

Lemma safeParse_success data val :
  safeParse data = ParseSuccess val ↔
    parse_object data = ([], Some val) ∧ superRefine val = [].
Proof.
  unfold safeParse. pose proof (parse_object_aborted data) as Hab.
  destruct (parse_object data) as [iss [v|]]; cbn [fst snd] in *.
  - split.
    + destruct (iss ++ superRefine v) eqn:Happ; [|done].
      intros [= <-]. by apply app_eq_nil in Happ as [-> ->].
    + intros [[= -> ->] ->]. done.
  - split; [done|]. by intros [[=] _].
Qed.

(** Every issue of the object parse is in the error of [safeParse]. *)
Lemma safeParse_reports data i :
  i ∈ (parse_object data).1 →
  ∃ iss, safeParse data = ParseError iss ∧ i ∈ iss.
Proof.
  unfold safeParse.
  destruct (parse_object data) as [iss [v|]]; cbn [fst snd]; intros Hi.
  - destruct (iss ++ superRefine v) as [|j all] eqn:Happ.
    + apply app_eq_nil in Happ as [-> _]. by apply elem_of_nil in Hi.
    + exists (j :: all). split; [done|]. rewrite <- Happ.
      apply elem_of_app. by left.
  - by exists iss.
Qed.

End parse_object_lemmas.

(** ** The store and the normalizer *)

Section normalizer_lemmas.

Lemma str_eqb_eq a b : str_eqb a b = true ↔ a = b.
Proof. unfold str_eqb. by rewrite bool_decide_eq_true. Qed.

Lemma str_eqb_neq a b : str_eqb a b = false ↔ a ≠ b.
Proof. unfold str_eqb. by rewrite bool_decide_eq_false. Qed.

Lemma alloc_array_lookup (h : heap) :
  (alloc_array h).2 !! (alloc_array h).1 = Some [].
Proof. unfold alloc_array. simpl. by apply list_lookup_middle. Qed.

Lemma push_lookup arr s (h : heap) :
  push arr s h !! arr = (λ a, a ++ [s]) <$> h !! arr.
Proof. unfold push. by rewrite list_lookup_alter_eq. Qed.

Lemma push_lookup_ne arr l s (h : heap) :
  arr ≠ l → push arr s h !! l = h !! l.
Proof. intros Hne. unfold push. by rewrite list_lookup_alter_ne. Qed.

(** A conditional push, read back. *)
Lemma cond_push_lookup (c : bool) arr s (h : heap) ws :
  h !! arr = Some ws →
  (if c then push arr s h else h) !! arr
  = Some (ws ++ if c then [s] else []).
Proof.
  intros Hh. destruct c.
  - by rewrite push_lookup, Hh.
  - by rewrite app_nil_r.
Qed.

Lemma cond_push_lookup_ne (c : bool) arr l s (h : heap) :
  arr ≠ l → (if c then push arr s h else h) !! l = h !! l.
Proof. intros Hne. destruct c; [by apply push_lookup_ne|done]. Qed.

(** The warnings of the document are the advisory warnings, whatever
    the store the call started from. *)
Lemma blueprint_warnings h input :
  Normalized.warnings (blueprint h input) = advisory_warnings input.
Proof.
  unfold blueprint, buildNormalizedIntake, read_document.
  pose proof (alloc_array_lookup h) as Hfresh.
  destruct (alloc_array h) as [w h0]. cbn [fst snd] in Hfresh.
  cbn [Normalized.warnings Normalized.systems Normalized.security
       Normalized.environment Normalized.agentWorkspace
       Normalized.dataSensitivity].
  erewrite cond_push_lookup; [|erewrite cond_push_lookup;
    [|erewrite cond_push_lookup; [|exact Hfresh]]]; try reflexivity.
  cbn [default]. unfold advisory_warnings, str_eqb.
  rewrite <- !app_assoc. cbn [app]. unfold id. f_equal.
  rewrite <- negb_orb.
  destruct (decide (IntakeForm.environment input = lit "sandbox")) as [->|H1];
    [done|].
  destruct (decide (IntakeForm.environment input = lit "demo")) as [->|H2];
    [done|].
  rewrite !bool_decide_eq_false_2 by done.
  rewrite bool_decide_eq_true_2; [done|].
  intros [?|[?|[]%elem_of_nil]%elem_of_cons]%elem_of_cons; done.
Qed.

(** The call leaves every array that was already in the store alone. *)
Lemma buildNormalizedIntake_frame input (h : heap) l :
  l < length h → (buildNormalizedIntake input h).2 !! l = h !! l.
Proof.
  intros Hl. unfold buildNormalizedIntake, alloc_array. cbn [snd].
  rewrite !cond_push_lookup_ne by (cbn; lia).
  by rewrite lookup_app_l.
Qed.

End normalizer_lemmas.

(** ** The cross-field rules *)

Section superRefine_lemmas.

Lemma truthy_opt_true o :
  truthy_opt o = true ↔ ∃ s, o = Some s ∧ s ≠ [].
Proof.
  destruct o as [[|c s]|]; simpl; split; try done.
  - by intros (s & [= <-] & ?).
  - intros _. by exists (c :: s).
  - by intros (s & [=] & ?).
Qed.

(** A rule of the form [if (cond && !field) addIssue(...)] raises
    nothing exactly when the condition brings a non-empty field. *)
Lemma rule_silent (cond : bool) o (i : issue) :
  (if cond && negb (truthy_opt o) then [i] else []) = []
  ↔ (cond = true → ∃ s, o = Some s ∧ s ≠ []).
Proof.
  rewrite <- truthy_opt_true.
  destruct cond, (truthy_opt o); simpl; split; try done.
  intros H. by discriminate H.
Qed.

Lemma superRefine_silent val :
  superRefine val = [] ↔
    (IntakeForm.crm val = lit "other" →
       ∃ s, IntakeForm.otherCrmName val = Some s ∧ s ≠ [])
    ∧ (IntakeForm.contactCenter val = lit "other" →
       ∃ s, IntakeForm.otherContactCenterName val = Some s ∧ s ≠ [])
    ∧ (lit "external_id" ∈ IntakeForm.matchingStrategy val →
       ∃ s, IntakeForm.externalIdField val = Some s ∧ s ≠ [])
    ∧ (IntakeForm.ownerStrategy val = lit "fixed_owner" →
       ∃ s, IntakeForm.fixedOwner val = Some s ∧ s ≠ [])
    ∧ (IntakeForm.dataSensitivity val = lit "regulated" →
       IntakeForm.logging val = lit "no_payload_logging").
Proof.
  unfold superRefine. split.
  - intros H.
    apply app_eq_nil in H as [H1 H]. apply app_eq_nil in H as [H2 H].
    apply app_eq_nil in H as [H3 H]. apply app_eq_nil in H as [H4 H5].
    pose proof (proj1 (rule_silent _ _ _) H1) as H1'.
    pose proof (proj1 (rule_silent _ _ _) H2) as H2'.
    pose proof (proj1 (rule_silent _ _ _) H3) as H3'.
    pose proof (proj1 (rule_silent _ _ _) H4) as H4'.
    repeat split.
    + intros ?. by apply H1', str_eqb_eq.
    + intros ?. by apply H2', str_eqb_eq.
    + intros ?. by apply H3', bool_decide_eq_true.
    + intros ?. by apply H4', str_eqb_eq.
    + intros Hs. apply str_eqb_eq in Hs. rewrite Hs in H5. simpl in H5.
      destruct (str_eqb (IntakeForm.logging val) _) eqn:Hl; [|done].
      by apply str_eqb_eq.
  - intros (H1 & H2 & H3 & H4 & H5).
    rewrite (proj2 (rule_silent _ _ _)) by (intros ?%str_eqb_eq; auto).
    rewrite (proj2 (rule_silent _ _ _)) by (intros ?%str_eqb_eq; auto).
    rewrite (proj2 (rule_silent _ _ _))
      by (intros ?%bool_decide_eq_true; auto).
    rewrite (proj2 (rule_silent _ _ _)) by (intros ?%str_eqb_eq; auto).
    simpl.
    destruct (str_eqb (IntakeForm.dataSensitivity val) _) eqn:Hs; [|done].
    apply str_eqb_eq in Hs. by rewrite (H5 Hs).
Qed.

Lemma elem_of_cond_singleton {A} (c : bool) (x i : A) :
  i ∈ (if c then [x] else []) → i = x.
Proof.
  destruct c; [by intros ?%list_elem_of_singleton|by intros ?%elem_of_nil].
Qed.

(** Every issue of the refinement is one of the five of the source. *)
Lemma superRefine_issues val i :
  i ∈ superRefine val →
  kind i = custom
  ∧ (keyed_to "otherCrmName" i ∨ keyed_to "otherContactCenterName" i
     ∨ keyed_to "externalIdField" i ∨ keyed_to "fixedOwner" i
     ∨ keyed_to "logging" i).
Proof.
  unfold superRefine. rewrite !elem_of_app.
  intros [H|[H|[H|[H|H]]]]; apply elem_of_cond_singleton in H as ->;
    (split; [done|]); unfold keyed_to; simpl; auto 10.
Qed.

End superRefine_lemmas.

(** ** The properties of the specification *)

(** Run the validator on a concrete object that it accepts: [input] is
    the parsed form, [Hparse] the run and [Hinput] the value of [input]. *)
Ltac run_validator data input Hparse Hinput :=
  assert (∃ v, safeParse data = ParseSuccess v) as [input Hparse]
    by (eexists; vm_compute; reflexivity);
  pose proof Hparse as Hinput; vm_compute in Hinput;
  injection Hinput as Hinput; symmetry in Hinput.

Lemma filter_truthy_str (ts : list jsstring) :
  List.filter truthy_str ts = filter (λ t, t ≠ []) ts.
Proof.
  induction ts as [|[|c t] ts IH]; simpl; [done|..].
  - by rewrite filter_cons_False by (intros H; by apply H).
  - rewrite filter_cons_True by done. by f_equal.
Qed.

Lemma customFields_spec o :
  ∃ segs ts,
    is_comma_split (or_empty o) segs
    ∧ Forall2 is_trimmed_of segs ts
    ∧ customFields o = filter (λ t, t ≠ []) ts.
Proof.
  exists (split comma (or_empty o)), (map trim (split comma (or_empty o))).
  split; [|split].
  - split; [apply split_nonempty|].
    split; [apply join_split|apply split_no_sep].
  - apply Forall2_map_rel, trim_spec.
  - apply filter_truthy_str.
Qed.

(** C4: the custom fields of the document are the comma-separated
    segments of [customContextFields], each trimmed, the empty ones
    dropped and the order kept; [" a, ,b ,"] gives [["a"; "b"]], an absent
    or empty string gives no field. *)
Theorem C4_custom_fields_split_trim_filter (input : IntakeForm.t) (h : heap) :
  let s := or_empty (IntakeForm.customContextFields input) in
  let fields :=
    Normalized.customFields (Normalized.contextInjection (blueprint h input)) in
  fields = customFields (IntakeForm.customContextFields input)
  ∧ (∃ segs ts,
       is_comma_split s segs
       ∧ Forall2 is_trimmed_of segs ts
       ∧ fields = filter (λ t, t ≠ []) ts)
  ∧ customFields (Some (lit " a, ,b ,")) = [lit "a"; lit "b"]
  ∧ customFields None = []
  ∧ customFields (Some []) = [].
Proof.
  cbn zeta. split; [reflexivity|]. split; [|by vm_compute].
  apply customFields_spec.
Qed.

Lemma is_present_spec v :
  is_present v = true ↔ v ≠ JUndefined ∧ v ≠ JNull ∧ v ≠ JString [].
Proof.
  destruct v as [| | | |[|c s]| |]; simpl; split; try done;
    by intros (? & ? & ?).
Qed.

(** C9: [pickFirst] returns the first candidate that is neither
    [undefined], nor [null], nor the empty string, and [undefined] when
    there is none. *)
Theorem C9_pickFirst_first_present (values : list jsval) :
  (∀ v, is_present v = true ↔ v ≠ JUndefined ∧ v ≠ JNull ∧ v ≠ JString [])
  ∧ ((∃ pre v post,
        values = pre ++ v :: post
        ∧ Forall (λ x, is_present x = false) pre
        ∧ is_present v = true
        ∧ pickFirst values = v)
     ∨ (Forall (λ x, is_present x = false) values
        ∧ pickFirst values = JUndefined)).
Proof.
  split; [apply is_present_spec|].
  induction values as [|x rest IH]; simpl.
  - right. by split.
  - destruct (is_present x) eqn:Hx.
    + left. exists [], x, rest. by repeat split.
    + destruct IH as [(pre & v & post & -> & Hpre & Hv & Hpick)|[Hall Hpick]].
      * left. exists (x :: pre), v, post. repeat split; try done.
        by constructor.
      * right. split; [by constructor|done].
Qed.

(** C3: the document does not depend on the store the call runs in, so
    two calls on the same input give the same document and the same
    serialization of it; the call changes no array that existed before. *)
Theorem C3_normalizer_deterministic (input : IntakeForm.t) (h1 h2 : heap) :
  blueprint h1 input = blueprint h2 input
  ∧ (∀ (A : Type) (serialize : Normalized.t (list jsstring) → A),
       serialize (blueprint h1 input) = serialize (blueprint h2 input))
  ∧ (∀ l, l < length h1 → (buildNormalizedIntake input h1).2 !! l = h1 !! l).
Proof.
  assert (blueprint h1 input = blueprint h2 input) as Heq.
  { pose proof (blueprint_warnings h1 input) as H1.
    pose proof (blueprint_warnings h2 input) as H2.
    unfold blueprint, buildNormalizedIntake, alloc_array, read_document in *.
    cbn [Normalized.warnings Normalized.version Normalized.mode
         Normalized.systems Normalized.trigger Normalized.crmActivity
         Normalized.matching Normalized.contextInjection Normalized.ownership
         Normalized.reliability Normalized.security] in *.
    f_equal. by rewrite H1, H2. }
  split; [exact Heq|]. split.
  - intros A serialize. by rewrite Heq.
  - intros l Hl. by apply buildNormalizedIntake_frame.
Qed.

Lemma z_enum_value values p v iss s :
  z_enum values p v = (iss, Some s) → s ∈ map lit values.
Proof.
  unfold z_enum. destruct v; try done.
  case_bool_decide; [|done]. by intros [= _ <-].
Qed.

Lemma WARN_ENVIRONMENT_distinct :
  WARN_ENVIRONMENT ≠ WARN_AGENT_WORKSPACE ∧ WARN_ENVIRONMENT ≠ WARN_REGULATED.
Proof. split; intros H; vm_compute in H; discriminate H. Qed.

(** C6: the warnings are the three advisory warnings, each decided on its
    own and in the fixed order; for an input the validator accepted the
    environment warning is absent and at most two warnings remain. *)
Theorem C6_advisory_warnings
    (data : object) (input : IntakeForm.t) (h : heap) :
  Normalized.warnings (blueprint h input) = advisory_warnings input
  ∧ (safeParse data = ParseSuccess input →
     (WARN_ENVIRONMENT ∉ Normalized.warnings (blueprint h input))
     ∧ length (Normalized.warnings (blueprint h input)) ≤ 2).
Proof.
  split; [apply blueprint_warnings|].
  intros [Hok _]%safeParse_success. rewrite blueprint_warnings.
  apply parse_object_ok in Hok.
  destruct Hok as (_ & _ & _ & _ & _ & _ & Henv & _).
  apply z_enum_value in Henv. unfold advisory_warnings.
  rewrite bool_decide_eq_false_2 by (by intros Hn; apply Hn).
  cbn [app]. destruct WARN_ENVIRONMENT_distinct as [Hd1 Hd2]. split.
  - repeat case_bool_decide; cbn [app];
      rewrite ?elem_of_cons, elem_of_nil; tauto.
  - repeat case_bool_decide; cbn; lia.
Qed.

Lemma C6_witness :
  ∃ input,
    safeParse (with_prop "logging" (jstr "no_payload_logging") regulated_values)
    = ParseSuccess input
    ∧ Normalized.warnings (blueprint [] input)
      = [WARN_AGENT_WORKSPACE; WARN_REGULATED]
    ∧ (WARN_ENVIRONMENT ∉ Normalized.warnings (blueprint [] input))
    ∧ length (Normalized.warnings (blueprint [] input)) ≤ 2.
Proof.
  run_validator
    (with_prop "logging" (jstr "no_payload_logging") regulated_values)
    input Hparse Hinput.
  exists input. split; [exact Hparse|].
  destruct (C6_advisory_warnings
              (with_prop "logging" (jstr "no_payload_logging") regulated_values)
              input []) as [Hw Hvalid].
  split; [|exact (Hvalid Hparse)].
  rewrite Hw. subst input. reflexivity.
Defined.

(** A present optional string property is the trimmed string of the
    object. *)
Lemma optional_trimmed_string k (data : object) iss s :
  prop k (z_optional (z_trim z_string)) data = (iss, Some (Some s)) →
  ∃ raw, data k = JString raw ∧ s = trim raw.
Proof.
  unfold prop, z_optional, z_trim, z_string.
  destruct (data k) as [| | | |raw| |]; cbn; try done.
  intros [= _ <-]. by exists raw.
Qed.

(** C1: in the document of a validated input the conditional fields are
    null when their condition is off: [otherCrmName] unless the CRM is
    "other", [fixedOwner] unless the owner strategy is "fixed_owner" (so
    for "unassigned", whatever [fixedOwner] the input carries),
    [externalIdField] unless "external_id" is among the matching
    strategies (and then it is the validated input's value, the trimmed
    string of the form), [interactionIdField] unless [storeCallId] is
    set. *)
Theorem C1_conditional_fields_nulled
    (data : object) (input : IntakeForm.t) (h : heap) :
  safeParse data = ParseSuccess input →
  let d := blueprint h input in
  (IntakeForm.crm input ≠ lit "other" →
     Normalized.otherCrmName (Normalized.systems d) = Null)
  ∧ (IntakeForm.ownerStrategy input ≠ lit "fixed_owner" →
     Normalized.fixedOwner (Normalized.ownership d) = Null)
  ∧ (IntakeForm.ownerStrategy input = lit "unassigned" →
     Normalized.fixedOwner (Normalized.ownership d) = Null)
  ∧ (lit "external_id" ∉ IntakeForm.matchingStrategy input →
     Normalized.externalIdField (Normalized.matching d) = Null)
  ∧ (lit "external_id" ∈ IntakeForm.matchingStrategy input →
     ∃ s, IntakeForm.externalIdField input = Some s
          ∧ (∃ raw, data "externalIdField" = JString raw ∧ s = trim raw)
          ∧ Normalized.externalIdField (Normalized.matching d) = Val s)
  ∧ (IntakeForm.storeCallId input = false →
     Normalized.interactionIdField (Normalized.ownership d) = Null).
Proof.
  intros [Hok Href]%safeParse_success. apply superRefine_silent in Href.
  destruct Href as (_ & _ & Hext & _ & _).
  apply parse_object_ok in Hok.
  destruct Hok as (_ & _ & _ & _ & _ & _ & _ & _ & _ & _ & _ & _ & _ & _
                   & Hraw & _).
  cbn zeta. unfold blueprint, buildNormalizedIntake, alloc_array, read_document.
  cbn [Normalized.systems Normalized.ownership Normalized.matching
       Normalized.otherCrmName Normalized.fixedOwner
       Normalized.externalIdField Normalized.interactionIdField].
  split; [|split; [|split; [|split; [|split]]]].
  - intros Hne. by rewrite (proj2 (str_eqb_neq _ _) Hne).
  - intros Hne. by rewrite (proj2 (str_eqb_neq _ _) Hne).
  - intros ->. reflexivity.
  - intros Hni. by rewrite bool_decide_eq_false_2.
  - intros Hin. destruct (Hext Hin) as (s & Hs & _).
    exists s. split; [done|]. split.
    + rewrite Hs in Hraw. by apply optional_trimmed_string in Hraw.
    + rewrite bool_decide_eq_true_2 by done. by rewrite Hs.
  - intros ->. reflexivity.
Qed.

Lemma C1_witness :
  (∃ input,
     safeParse stray_values = ParseSuccess input
     ∧ IntakeForm.fixedOwner input = Some (lit "queue-7")
     ∧ Normalized.fixedOwner (Normalized.ownership (blueprint [] input)) = Null
     ∧ Normalized.otherCrmName (Normalized.systems (blueprint [] input)) = Null
     ∧ Normalized.externalIdField (Normalized.matching (blueprint [] input))
       = Null
     ∧ Normalized.interactionIdField (Normalized.ownership (blueprint [] input))
       = Null)
  ∧ (∃ input,
       safeParse external_id_values = ParseSuccess input
       ∧ Normalized.externalIdField (Normalized.matching (blueprint [] input))
         = Val (lit "customer_ref")).
Proof.
  split.
  - run_validator stray_values input Hparse Hinput.
    exists input. split; [exact Hparse|].
    destruct (C1_conditional_fields_nulled stray_values input [] Hparse)
      as (Hcrm & _ & Hown & Hext & _ & Hcall).
    subst input.
    split; [reflexivity|].
    split; [apply Hown; reflexivity|].
    split; [apply Hcrm; vm_compute; discriminate|].
    split; [|apply Hcall; reflexivity].
    apply Hext. vm_compute.
    intros [[=]|[]%elem_of_nil]%elem_of_cons.
  - run_validator external_id_values input Hparse Hinput.
    exists input. split; [exact Hparse|].
    destruct (C1_conditional_fields_nulled external_id_values input [] Hparse)
      as (_ & _ & _ & _ & Hext & _).
    destruct Hext as (s & Hs & _ & Hdoc).
    + subst input. vm_compute. by apply list_elem_of_singleton.
    + rewrite Hdoc. subst input. injection Hs as <-. reflexivity.
Defined.

(** C2: for a validated input [trigger.event] is the contact center name
    followed by ".interaction.accepted", the name being the [contactCenter]
    value unless that is "other", and then the (non-empty)
    [otherContactCenterName]; [trigger.interactionType] is "voice" when
    [voiceOnly] is set and "generic" otherwise. *)
Theorem C2_trigger_event_and_type
    (data : object) (input : IntakeForm.t) (h : heap) :
  safeParse data = ParseSuccess input →
  let d := blueprint h input in
  (∃ name,
     Normalized.event (Normalized.trigger d)
     = name ++ lit ".interaction.accepted"
     ∧ (IntakeForm.contactCenter input ≠ lit "other" →
        name = IntakeForm.contactCenter input)
     ∧ (IntakeForm.contactCenter input = lit "other" →
        IntakeForm.otherContactCenterName input = Some name ∧ name ≠ []))
  ∧ Normalized.interactionType (Normalized.trigger d)
    = (if IntakeForm.voiceOnly input then lit "voice" else lit "generic").
Proof.
  intros [_ Href]%safeParse_success. apply superRefine_silent in Href.
  destruct Href as (_ & Hcc & _).
  cbn zeta. unfold blueprint, buildNormalizedIntake, alloc_array, read_document.
  cbn [Normalized.trigger Normalized.event Normalized.interactionType].
  split; [|reflexivity].
  destruct (decide (IntakeForm.contactCenter input = lit "other")) as [He|Hne].
  - destruct (Hcc He) as (s & Hs & Hs').
    exists s. rewrite (proj2 (str_eqb_eq _ _) He), Hs. by repeat split.
  - exists (IntakeForm.contactCenter input).
    rewrite (proj2 (str_eqb_neq _ _) Hne). by repeat split.
Qed.

Lemma C2_witness :
  (∃ input,
     safeParse defaultValues = ParseSuccess input
     ∧ Normalized.event (Normalized.trigger (blueprint [] input))
       = lit "ringcentral.interaction.accepted"
     ∧ Normalized.interactionType (Normalized.trigger (blueprint [] input))
       = lit "voice")
  ∧ (∃ input,
       safeParse other_contact_center_values = ParseSuccess input
       ∧ Normalized.event (Normalized.trigger (blueprint [] input))
         = lit "Acme Voice.interaction.accepted"
       ∧ Normalized.interactionType (Normalized.trigger (blueprint [] input))
         = lit "generic").
Proof.
  split.
  - run_validator defaultValues input Hparse Hinput.
    exists input. split; [exact Hparse|].
    destruct (C2_trigger_event_and_type defaultValues input [] Hparse)
      as [(name & Hev & Hname & _) Hty].
    subst input. split; [|exact Hty].
    rewrite Hev, Hname; [reflexivity|]. vm_compute. discriminate.
  - run_validator other_contact_center_values input Hparse Hinput.
    exists input. split; [exact Hparse|].
    destruct (C2_trigger_event_and_type other_contact_center_values input []
                Hparse) as [(name & Hev & _ & Hname) Hty].
    subst input. split; [|exact Hty].
    destruct Hname as [Hname _]; [reflexivity|].
    rewrite Hev. injection Hname as <-. reflexivity.
Defined.

(** ** Validation errors *)

(** Where the issues of a failed validation come from. *)
Lemma safeParse_error data iss :
  safeParse data = ParseError iss →
  iss ≠ []
  ∧ ∀ i, i ∈ iss →
      i ∈ (parse_object data).1
      ∨ ∃ val, (parse_object data).2 = Some val ∧ i ∈ superRefine val.
Proof.
  unfold safeParse. pose proof (parse_object_aborted data) as Hab.
  destruct (parse_object data) as [base [val|]]; cbn [fst snd] in *.
  - destruct (base ++ superRefine val) as [|j all] eqn:Happ; [done|].
    intros [= <-]. split; [done|]. intros i Hi.
    rewrite <- Happ in Hi. apply elem_of_app in Hi as [Hi|Hi]; [by left|].
    right. by exists val.
  - intros [= <-]. split; [by apply Hab|]. intros i Hi. by left.
Qed.

(** The security properties of a form the object parse let through,
    whatever issues it raised on the way. *)
Lemma parse_object_security data iss val :
  parse_object data = (iss, Some val) →
  (prop "dataSensitivity" SENSITIVITY_ENUM data).2
  = Some (IntakeForm.dataSensitivity val)
  ∧ (prop "logging" LOGGING_ENUM data).2 = Some (IntakeForm.logging val).
Proof.
  unfold parse_object. cbv zeta.
  repeat match goal with
  | |- context [prop ?k ?s data] => generalize (prop k s data); intros [? ?]
  end.
  cbn [fst snd]. intros H. injection H as _ Hval.
  walk_binds Hval. by injection Hval as <-.
Qed.

(** Re-run the validator on an object that differs in one property from
    an object [data] that parsed without issue ([Hok]): every other
    property parses as it did. *)
Ltac reparse Hok :=
  let H := fresh "H" in
  pose proof (proj1 (parse_object_ok _ _) Hok) as H;
  unfold safeParse, parse_object; cbv zeta;
  rewrite prop_with_prop_eq;
  rewrite !prop_with_prop_ne by reflexivity;
  repeat match type of H with
  | _ ∧ _ => let Hk := fresh "Hk" in destruct H as [Hk H]; rewrite ?Hk
  end;
  rewrite ?H.

(** An enum property of a parsed form is the string of the object. *)
Lemma parsed_security data iss val :
  parse_object data = (iss, Some val) →
  (∀ s, data "dataSensitivity" = JString s → IntakeForm.dataSensitivity val = s)
  ∧ (∀ s, data "logging" = JString s → IntakeForm.logging val = s).
Proof.
  intros [Hs Hl]%parse_object_security.
  unfold prop, SENSITIVITY_ENUM, LOGGING_ENUM, z_enum in Hs, Hl.
  split; intros s Hdata.
  - rewrite Hdata in Hs. case_bool_decide; cbn in Hs; congruence.
  - rewrite Hdata in Hl. case_bool_decide; cbn in Hl; congruence.
Qed.

(** The validator reads its input through property lookups only. *)
Lemma safeParse_ext (data1 data2 : object) :
  (∀ k, data1 k = data2 k) → safeParse data1 = safeParse data2.
Proof.
  intros Hext. unfold safeParse, parse_object, prop. cbv zeta.
  by rewrite !Hext.
Qed.

Lemma with_prop_same k v (data : object) k' :
  data k = v → with_prop k v data k' = data k'.
Proof.
  intros Hv. unfold with_prop.
  destruct (String.eqb_spec k' k) as [->|_]; done.
Qed.

Lemma with_prop_twice k v w (data : object) k' :
  with_prop k v (with_prop k w data) k' = with_prop k v data k'.
Proof. unfold with_prop. by destruct (String.eqb k' k). Qed.

Ltac form_projections :=
  cbn [IntakeForm.crm IntakeForm.otherCrmName IntakeForm.contactCenter
       IntakeForm.otherContactCenterName IntakeForm.matchingStrategy
       IntakeForm.externalIdField IntakeForm.ownerStrategy
       IntakeForm.fixedOwner IntakeForm.dataSensitivity IntakeForm.logging].

(** The issues of the object parse are on the property that raised them:
    none is on [logging] when that property raised none. *)
Lemma parse_object_logging_issues data :
  (prop "logging" LOGGING_ENUM data).1 = [] →
  Forall (λ i, ¬ keyed_to "logging" i) (parse_object data).1.
Proof.
  intros Hl. unfold parse_object. cbv zeta. cbn [fst]. rewrite Hl.
  repeat (apply Forall_app; split); try apply Forall_nil_2;
    (eapply Forall_impl; [apply prop_issues; solve_wf|]);
    intros i [_ Hk] Hk'; unfold keyed_to in *; congruence.
Qed.

(** With regulated data, an input with [mask_pii] and the same input with
    [no_payload_logging] parse alike, property by property, and the
    logging rule is the one thing that separates their refinements. *)
Lemma regulated_logging_split (data : object) :
  data "dataSensitivity" = jstr "regulated" →
  data "logging" = jstr "mask_pii" →
  let fixed := with_prop "logging" (jstr "no_payload_logging") data in
  (parse_object fixed).1 = (parse_object data).1
  ∧ ((parse_object data).2 = None → (parse_object fixed).2 = None)
  ∧ (∀ val,
       (parse_object data).2 = Some val →
       ∃ val',
         (parse_object fixed).2 = Some val'
         ∧ superRefine val
           = superRefine val'
             ++ [Issue custom [PKey "logging"] (Some regulated_logging_message)]
         ∧ Forall (λ i, ¬ keyed_to "logging" i) (superRefine val')
         ∧ IntakeForm.dataSensitivity val' = lit "regulated").
Proof.
  intros Hsens Hlog fixed.
  assert (prop "dataSensitivity" SENSITIVITY_ENUM data
          = ([], Some (lit "regulated"))) as Hps.
  { unfold prop. rewrite Hsens. reflexivity. }
  assert (prop "logging" LOGGING_ENUM data = ([], Some (lit "mask_pii")))
    as Hpl.
  { unfold prop. rewrite Hlog. reflexivity. }
  unfold fixed, parse_object. cbv zeta.
  rewrite prop_with_prop_eq. rewrite !prop_with_prop_ne by reflexivity.
  replace (LOGGING_ENUM [PKey "logging"] (jstr "no_payload_logging"))
    with (@nil issue, Some (lit "no_payload_logging")) by reflexivity.
  rewrite Hps, Hpl. clear Hps Hpl Hsens Hlog fixed.
  repeat match goal with
  | |- context [prop ?k ?s data] => generalize (prop k s data); intros [? ?]
  end.
  cbn [fst snd]. split; [reflexivity|]. split.
  - intros Hnone.
    repeat match type of Hnone with
    | mbind _ ?o = None =>
        destruct o; cbn [mbind option_bind] in Hnone |- *; [|reflexivity]
    end.
    discriminate Hnone.
  - intros val Hval. walk_binds Hval. injection Hval as <-.
    cbn [mbind option_bind]. eexists. split; [reflexivity|].
    unfold superRefine. form_projections.
    replace (str_eqb (lit "regulated") (lit "regulated")
             && negb (str_eqb (lit "mask_pii") (lit "no_payload_logging")))
      with true by reflexivity.
    replace (str_eqb (lit "regulated") (lit "regulated")
             && negb (str_eqb (lit "no_payload_logging")
                        (lit "no_payload_logging")))
      with false by reflexivity.
    split; [|split; [|reflexivity]].
    + rewrite <- !app_assoc. reflexivity.
    + repeat (apply Forall_app; split); try apply Forall_nil_2;
        match goal with
        | |- Forall _ (if ?c then _ else _) => destruct c
        end;
        try apply Forall_nil_2;
        apply Forall_singleton; intros Hk; vm_compute in Hk; discriminate Hk.
Qed.




Lemma prop_issue_key {A} k (s : schema A) data i :
  schema_wf s → i ∈ (prop k s data).1 → keyed_to k i.
Proof.
  intros Hs Hi. pose proof (prop_issues k s data Hs) as Hall.
  rewrite Forall_forall in Hall. by apply Hall.
Qed.

(** C7: a [subjectTemplate] of fewer than 5 code units is rejected, the
    error (a value, not an exception) holding an issue on
    [subjectTemplate]; with 5 code units or more no issue of a failed
    validation is on [subjectTemplate]. *)
Theorem C7_subjectTemplate_min_length (data : object) (s : jsstring) :
  data "subjectTemplate" = JString s →
  (length s < 5 →
     ∃ iss,
       safeParse data = ParseError iss
       ∧ Issue too_small [PKey "subjectTemplate"]
           (Some subject_template_message) ∈ iss)
  ∧ (5 ≤ length s →
     ∀ iss,
       safeParse data = ParseError iss →
       Forall (λ i, ¬ keyed_to "subjectTemplate" i) iss).
Proof.
  intros Hdata. split.
  - intros Hlen. apply safeParse_reports.
    unfold parse_object. cbv zeta. cbn [fst].
    rewrite !elem_of_app. do 10 right. left.
    unfold prop, z_min, z_string. rewrite Hdata.
    destruct (Nat.ltb_spec (length s) 5) as [_|?]; [|lia].
    cbn. by apply list_elem_of_singleton.
  - intros Hlen iss [_ Hfrom]%safeParse_error.
    apply Forall_forall. intros i Hi Hkey.
    assert (prop "subjectTemplate"
              (z_min 5 (Some subject_template_message) z_string) data
            = ([], Some s)) as Hst.
    { unfold prop, z_min, z_string. rewrite Hdata.
      destruct (Nat.ltb_spec (length s) 5) as [?|_]; [lia|done]. }
    destruct (Hfrom i Hi) as [Hbase|(val & _ & Href)].
    + unfold parse_object in Hbase. cbv zeta in Hbase. cbn [fst] in Hbase.
      rewrite Hst in Hbase. cbn [fst] in Hbase.
      rewrite !elem_of_app in Hbase.
      repeat match type of Hbase with
      | _ ∨ _ => destruct Hbase as [Hbase|Hbase]
      end;
      try (by apply elem_of_nil in Hbase);
      (apply prop_issue_key in Hbase; [|solve_wf]);
      unfold keyed_to in *; congruence.
    + apply superRefine_issues in Href as [_ Href].
      unfold keyed_to in *.
      repeat match type of Href with
      | _ ∨ _ => destruct Href as [Href|Href]
      end; congruence.
Qed.

Lemma C7_witness :
  (∃ iss,
     safeParse (with_prop "subjectTemplate" (jstr "Call") defaultValues)
     = ParseError iss
     ∧ Issue too_small [PKey "subjectTemplate"]
         (Some subject_template_message) ∈ iss)
  ∧ (∀ iss,
       safeParse (with_prop "subjectTemplate" (jstr "Calls") regulated_values)
       = ParseError iss →
       Forall (λ i, ¬ keyed_to "subjectTemplate" i) iss).
Proof.
  split.
  - apply (C7_subjectTemplate_min_length
             (with_prop "subjectTemplate" (jstr "Call") defaultValues)
             (lit "Call") eq_refl).
    vm_compute. lia.
  - apply (C7_subjectTemplate_min_length
             (with_prop "subjectTemplate" (jstr "Calls") regulated_values)
             (lit "Calls") eq_refl).
    vm_compute. lia.
Defined.

(** The refinement does not read [callIdField] or [idempotencyKey], and
    reads [fixedOwner] and [externalIdField] only under their enabling
    condition; spelled out on the forms the validator rebuilds. *)
Ltac refine_unchanged Href :=
  match goal with
  | |- context [superRefine ?v] => assert (superRefine v = []) as ->
  end;
  [ apply superRefine_silent; apply superRefine_silent in Href;
    cbn [IntakeForm.crm IntakeForm.otherCrmName IntakeForm.contactCenter
         IntakeForm.otherContactCenterName IntakeForm.matchingStrategy
         IntakeForm.externalIdField IntakeForm.ownerStrategy
         IntakeForm.fixedOwner IntakeForm.dataSensitivity IntakeForm.logging]
  | ].

(** C8: an input whose [callIdField] is missing (or not a string) is
    rejected with an issue on [callIdField], whatever [storeCallId] is;
    [fixedOwner] and [externalIdField], in contrast, may be left out of a
    valid input as long as their enabling option is off. *)
Theorem C8_callIdField_always_required :
  (∀ data : object,
     (∀ s, data "callIdField" ≠ JString s) →
     ∃ iss,
       safeParse data = ParseError iss
       ∧ Issue invalid_type [PKey "callIdField"] None ∈ iss)
  ∧ (∀ (data : object) input,
       safeParse data = ParseSuccess input →
       IntakeForm.ownerStrategy input ≠ lit "fixed_owner" →
       ∃ input',
         safeParse (with_prop "fixedOwner" JUndefined data)
         = ParseSuccess input')
  ∧ (∀ (data : object) input,
       safeParse data = ParseSuccess input →
       lit "external_id" ∉ IntakeForm.matchingStrategy input →
       ∃ input',
         safeParse (with_prop "externalIdField" JUndefined data)
         = ParseSuccess input').
Proof.
  split; [|split].
  - intros data Hmissing. apply safeParse_reports.
    unfold parse_object. cbv zeta. cbn [fst].
    rewrite !elem_of_app. do 21 right. left.
    unfold prop, z_trim, z_string.
    destruct (data "callIdField") as [| | | |s| |] eqn:Hv;
      try (cbn; by apply list_elem_of_singleton).
    by destruct (Hmissing s).
  - intros data input [Hok Href]%safeParse_success Hown.
    eexists. reparse Hok.
    cbn [z_optional fst snd app mbind option_bind].
    refine_unchanged Href; [|reflexivity].
    destruct Href as (H1 & H2 & H3 & H4 & H5).
    repeat split; try done.
  - intros data input [Hok Href]%safeParse_success Hext.
    eexists. reparse Hok.
    cbn [z_optional fst snd app mbind option_bind].
    refine_unchanged Href; [|reflexivity].
    destruct Href as (H1 & H2 & H3 & H4 & H5).
    repeat split; try done.
Qed.

Lemma C8_witness :
  (∃ iss,
     safeParse no_call_id_values = ParseError iss
     ∧ Issue invalid_type [PKey "callIdField"] None ∈ iss)
  ∧ (∃ input',
       safeParse (with_prop "fixedOwner" JUndefined stray_values)
       = ParseSuccess input').
Proof.
  destruct C8_callIdField_always_required as (Hcall & Hfixed & _).
  split.
  - apply Hcall. intros s Hs. vm_compute in Hs. discriminate Hs.
  - run_validator stray_values input Hparse Hinput.
    apply (Hfixed stray_values input Hparse).
    subst input. vm_compute. discriminate.
Defined.

Lemma z_trim_string_issues p v :
  (z_trim z_string p v).1 = [] ↔ ∃ s, v = JString s.
Proof.
  unfold z_trim, z_string. destruct v; cbn; split; try done;
    try (by intros [? [=]]).
  intros _. by eexists.
Qed.

(** C10 (as amended): the rule of [callIdField] and of [idempotencyKey]
    raises an issue only on a value that is not a string, so a valid input
    stays valid with either of them set to the empty string;
    an empty [idempotencyKey] is [reliability.idempotencyKey] of the
    document, and an empty [callIdField] is [ownership.interactionIdField] when
    [storeCallId] is set, that field being null when it is not. *)
Theorem C10_empty_strings_accepted (data : object) (input : IntakeForm.t) :
  safeParse data = ParseSuccess input →
  (∀ p v, (z_trim z_string p v).1 = [] ↔ ∃ s, v = JString s)
  ∧ (∃ input',
       safeParse (with_prop "callIdField" (JString []) data)
       = ParseSuccess input'
       ∧ IntakeForm.callIdField input' = []
       ∧ ∀ h,
           Normalized.interactionIdField
             (Normalized.ownership (blueprint h input'))
           = if IntakeForm.storeCallId input then Val [] else Null)
  ∧ (∃ input',
       safeParse (with_prop "idempotencyKey" (JString []) data)
       = ParseSuccess input'
       ∧ IntakeForm.idempotencyKey input' = []
       ∧ ∀ h,
           Normalized.idempotencyKey
             (Normalized.reliability (blueprint h input'))
           = []).
Proof.
  intros [Hok Href]%safeParse_success.
  split; [apply z_trim_string_issues|]. split.
  - eexists. split; [|split].
    + reparse Hok.
      replace (z_trim z_string [PKey "callIdField"] (JString []))
        with (@nil issue, Some (@nil N)) by reflexivity.
      cbn [fst snd app mbind option_bind].
      refine_unchanged Href; [exact Href|reflexivity].
    + reflexivity.
    + intros h. reflexivity.
  - eexists. split; [|split].
    + reparse Hok.
      replace (z_trim z_string [PKey "idempotencyKey"] (JString []))
        with (@nil issue, Some (@nil N)) by reflexivity.
      cbn [fst snd app mbind option_bind].
      refine_unchanged Href; [exact Href|reflexivity].
    + reflexivity.
    + intros h. reflexivity.
Qed.

Lemma C10_witness :
  ∃ input',
    safeParse (with_prop "callIdField" (JString []) defaultValues)
    = ParseSuccess input'
    ∧ IntakeForm.callIdField input' = []
    ∧ Normalized.interactionIdField
        (Normalized.ownership (blueprint [] input'))
      = Val [].
Proof.
  run_validator defaultValues input Hparse Hinput.
  destruct (C10_empty_strings_accepted defaultValues input Hparse)
    as (_ & (input' & Hparse' & Hfield & Hdoc) & _).
  exists input'. split; [exact Hparse'|]. split; [exact Hfield|].
  rewrite Hdoc. subst input. reflexivity.
Defined.

(** C10 as stated fails: an empty [callIdField] in an input that does
    not store the interaction id is accepted, and the document holds
    null, not the empty string. *)
Lemma C10_counterexample :
  ∃ input,
    empty_call_id_values "callIdField" = JString []
    ∧ safeParse empty_call_id_values = ParseSuccess input
    ∧ IntakeForm.callIdField input = []
    ∧ Normalized.interactionIdField
        (Normalized.ownership (blueprint [] input))
      = Null
    ∧ Normalized.interactionIdField
        (Normalized.ownership (blueprint [] input))
      ≠ Val (IntakeForm.callIdField input).
Proof.
  eexists. split; [reflexivity|]. split; [vm_compute; reflexivity|].
  split; [reflexivity|]. split; [reflexivity|]. by vm_compute.
Qed.

Lemma C3_witness :
  ∃ input,
    safeParse defaultValues = ParseSuccess input
    ∧ blueprint [] input = blueprint [[lit "stale"]; []] input
    ∧ (buildNormalizedIntake unvalidated_form [[lit "stale"]; []]).2 !! 0
      = Some [lit "stale"].
Proof.
  run_validator defaultValues input Hparse Hinput.
  exists input. split; [exact Hparse|].
  split.
  - apply (C3_normalizer_deterministic input [] [[lit "stale"]; []]).
  - destruct (C3_normalizer_deterministic unvalidated_form
                [[lit "stale"]; []] []) as (_ & _ & Hframe).
    rewrite Hframe; [reflexivity|]. cbn. lia.
Defined.

Lemma C4_witness :
  ∃ input,
    safeParse custom_fields_values = ParseSuccess input
    ∧ IntakeForm.customContextFields input = Some (lit "a, ,b ,")
    ∧ Normalized.customFields
        (Normalized.contextInjection (blueprint [] input))
      = [lit "a"; lit "b"].
Proof.
  run_validator custom_fields_values input Hparse Hinput.
  exists input. split; [exact Hparse|].
  destruct (C4_custom_fields_split_trim_filter input []) as (Heq & _).
  rewrite Heq. subst input. split; reflexivity.
Defined.

Lemma C9_witness :
  let values := [JUndefined; JString []; JNull; jstr "hubspot"; jstr "crm"] in
  pickFirst values = jstr "hubspot"
  ∧ ((∃ pre v post,
        values = pre ++ v :: post
        ∧ Forall (λ x, is_present x = false) pre
        ∧ is_present v = true
        ∧ pickFirst values = v)
     ∨ (Forall (λ x, is_present x = false) values
        ∧ pickFirst values = JUndefined)).
Proof.
  cbn zeta. split; [reflexivity|].
  apply (C9_pickFirst_first_present
           [JUndefined; JString []; JNull; jstr "hubspot"; jstr "crm"]).
Defined.

(** On a form that was not validated all three warnings can appear
    together, in the order of the source. *)
Example advisory_warnings_all_three h :
  Normalized.warnings (blueprint h unvalidated_form)
  = [WARN_ENVIRONMENT; WARN_AGENT_WORKSPACE; WARN_REGULATED].
Proof. rewrite blueprint_warnings. reflexivity. Qed.

(** A falsy value that is not the empty string is picked. *)
Example pickFirst_zero :
  pickFirst [JNull; JNumber 0; jstr "x"] = JNumber 0.
Proof. reflexivity. Qed.

(** A lone [trim] keeps inner blanks and strips a no-break space. *)
Example trim_example :
  trim ([160%N] ++ lit " a b " ++ [10%N]) = lit "a b".
Proof. reflexivity. Qed.

(** ** Further properties of the validator *)

Section trim_lemmas.

Lemma trim_start_id s :
  (∀ c, head s = Some c → is_ws c = false) → trim_start s = s.
Proof.
  destruct s as [|c s]; [done|]. simpl. intros H.
  by rewrite (H c eq_refl).
Qed.

Lemma trim_end_id s :
  (∀ c, last s = Some c → is_ws c = false) → trim_end s = s.
Proof.
  intros H. unfold trim_end. rewrite trim_start_id.
  - apply reverse_involutive.
  - intros c. rewrite head_reverse. apply H.
Qed.

Lemma trim_is_trimmed s : is_trimmed (trim s).
Proof. destruct (trim_spec s) as (_ & Hh & Hl). by split. Qed.

Lemma trim_fixpoint s : trim s = s ↔ is_trimmed s.
Proof.
  split.
  - intros <-. apply trim_is_trimmed.
  - intros [Hh Hl]. unfold trim. rewrite trim_start_id by done.
    by apply trim_end_id.
Qed.

Lemma trim_idempotent s : trim (trim s) = trim s.
Proof. apply trim_fixpoint, trim_is_trimmed. Qed.

End trim_lemmas.

Section schema_values.

Lemma z_literal_value value p v iss s :
  z_literal value p v = (iss, Some s) → s = lit value.
Proof.
  unfold z_literal. destruct v as [| | | |x| |]; try done.
  destruct (str_eqb x (lit value)) eqn:He; [|done].
  apply str_eqb_eq in He. by intros [= _ <-].
Qed.

Lemma z_min_value n msg p v s :
  z_min n msg z_string p v = ([], Some s) → n ≤ length s.
Proof.
  unfold z_min, z_string. destruct v as [| | | |x| |]; try done.
  destruct (Nat.ltb_spec (length x) n); [done|]. by intros [= <-].
Qed.

Lemma z_trim_value p v iss s :
  z_trim z_string p v = (iss, Some s) → is_trimmed s.
Proof.
  unfold z_trim, z_string. destruct v as [| | | |x| |]; try done.
  cbn. intros [= _ <-]. apply trim_is_trimmed.
Qed.

Lemma z_optional_trim_value p v iss o :
  z_optional (z_trim z_string) p v = (iss, Some o) → opt_trimmed o.
Proof.
  unfold z_optional, z_trim, z_string.
  destruct v as [| | | |x| |]; cbn; try done.
  - intros [= _ <-] s Hs. discriminate Hs.
  - intros [= _ <-] s [= <-]. apply trim_is_trimmed.
Qed.

(** The elements of a parsed array are the parsed elements, in order. *)
Lemma mapM_imap_parsed {A} (elem : schema A) (f : nat → list pathseg) xs l :
  mapM snd (imap (λ i x, elem (f i) x) xs) = Some l →
  Forall2 (λ x y, ∃ p, (elem p x).2 = Some y) xs l.
Proof.
  revert f l. induction xs as [|x xs IH]; intros f l; cbn.
  - intros [= <-]. constructor.
  - destruct (elem (f 0%nat) x) as [iss [y|]] eqn:Hx; cbn; [|done].
    destruct (mapM snd (imap _ xs)) as [ys|] eqn:Hxs; cbn; [|done].
    intros [= <-]. constructor.
    + exists (f 0%nat). by rewrite Hx.
    + apply (IH (f ∘ S)). exact Hxs.
Qed.

Lemma Forall2_range {A B} (R : A → B → Prop) xs l :
  Forall2 R xs l → Forall (λ y, ∃ x, R x y) l.
Proof. induction 1; constructor; eauto. Qed.

Lemma z_array_min_value {A} (elem : schema A) n msg p v l :
  z_array_min elem n msg p v = ([], Some l) →
  n ≤ length l ∧ Forall (λ y, ∃ x q, (elem q x).2 = Some y) l.
Proof.
  unfold z_array_min. destruct v as [| | | | |xs|]; try done.
  destruct (Nat.ltb_spec (length xs) n) as [|Hlen]; [done|].
  cbn [app]. intros [= _ Hl]. apply mapM_imap_parsed in Hl.
  split.
  - by rewrite <- (Forall2_length _ _ _ Hl).
  - by apply Forall2_range in Hl.
Qed.

End schema_values.

Section schema_accepts.

Lemma z_enum_accepts values p s :
  one_of values s → z_enum values p (JString s) = ([], Some s).
Proof. intros Hs. unfold z_enum. by rewrite bool_decide_eq_true_2. Qed.

Lemma z_literal_accepts value p :
  z_literal value p (JString (lit value)) = ([], Some (lit value)).
Proof.
  unfold z_literal. by rewrite (proj2 (str_eqb_eq _ _) eq_refl).
Qed.

Lemma z_trim_accepts p s :
  is_trimmed s → z_trim z_string p (JString s) = ([], Some s).
Proof.
  intros Hs. unfold z_trim, z_string. cbn.
  by rewrite (proj2 (trim_fixpoint s) Hs).
Qed.

Lemma z_optional_trim_accepts p o :
  opt_trimmed o →
  z_optional (z_trim z_string) p (opt_value o) = ([], Some o).
Proof.
  intros Ho. destruct o as [s|]; [|done].
  unfold z_optional, opt_value.
  rewrite z_trim_accepts by (by apply Ho). done.
Qed.

Lemma z_min_accepts n msg p s :
  n ≤ length s → z_min n msg z_string p (JString s) = ([], Some s).
Proof.
  intros Hn. unfold z_min, z_string.
  destruct (Nat.ltb_spec (length s) n); [lia|done].
Qed.

Lemma imap_accepts {A} (elem : schema A) (inj : A → jsval)
    (f : nat → list pathseg) l :
  Forall (λ y, ∀ q, elem q (inj y) = ([], Some y)) l →
  let rs := imap (λ i x, elem (f i) x) (inj <$> l) in
  concat (fst <$> rs) = [] ∧ mapM snd rs = Some l.
Proof.
  revert f. induction l as [|y l IH]; intros f Hall; [done|].
  inversion Hall as [|? ? Hy Hl]; subst.
  destruct (IH (f ∘ S) Hl) as [H1 H2].
  cbn in H1, H2 |- *. rewrite Hy. cbn.
  split; [exact H1|].
  match goal with
  | |- ?m ≫= _ = _ => replace m with (Some l) by (symmetry; exact H2)
  end.
  done.
Qed.

Lemma z_array_min_accepts {A} (elem : schema A) (inj : A → jsval) n msg p l :
  n ≤ length l →
  Forall (λ y, ∀ q, elem q (inj y) = ([], Some y)) l →
  z_array_min elem n msg p (JArray (inj <$> l)) = ([], Some l).
Proof.
  intros Hn Hall. unfold z_array_min. rewrite length_fmap.
  destruct (Nat.ltb_spec (length l) n); [lia|].
  destruct (imap_accepts elem inj (λ i, p ++ [PIndex i]) l Hall) as [H1 H2].
  cbn in H1, H2. by rewrite H1, H2.
Qed.

Lemma nonempty_length {A} (l : list A) : l ≠ [] ↔ 1 ≤ length l.
Proof. destruct l; cbn; split; try done; lia. Qed.

End schema_accepts.

(** From a successful run of an element schema to the parsed element. *)
Ltac array_members H :=
  eapply Forall_impl; [exact H|];
  let y := fresh "y" in
  let x := fresh "x" in
  let q := fresh "q" in
  let Hy := fresh "Hy" in
  intros y (x & q & Hy); cbn beta in Hy;
  match type of Hy with
  | (?e).2 = _ => destruct e as [? ?] eqn:He; cbn in Hy; subst;
                  by eapply z_enum_value
  end.

Lemma accepted_form_valid (data : object) (input : IntakeForm.t) :
  safeParse data = ParseSuccess input → valid_form input.
Proof.
  intros [Hok Href]%safeParse_success.
  apply superRefine_silent in Href as (R1 & R2 & R3 & R4 & R5).
  apply parse_object_ok in Hok. unfold prop in Hok.
  unfold CRM_ENUM, CONTACT_CENTER_ENUM, AGENT_WORKSPACE_ENUM,
    CRM_ACTIVITY_ENUM, OWNER_STRATEGY_ENUM, PHONE_NORM_ENUM,
    CONTEXT_PLACEMENT_ENUM, VOLUME_ENUM, LATENCY_ENUM, SENSITIVITY_ENUM,
    LOGGING_ENUM in Hok.
  destruct Hok as (H1 & H2 & H3 & H4 & H5 & H6 & H7 & H8 & H9 & H10 & H11
                   & H12 & H13 & H14 & H15 & H16 & H17 & H18 & H19 & H20
                   & H21 & H22 & H23 & H24 & H25 & H26 & H27).
  apply z_array_min_value in H12 as [L12 M12].
  apply z_array_min_value in H13 as [L13 M13].
  apply z_array_min_value in H16 as [L16 _].
  constructor; unfold one_of; try done.
  - by eapply z_literal_value.
  - by eapply z_enum_value.
  - by eapply z_optional_trim_value.
  - by eapply z_enum_value.
  - by eapply z_optional_trim_value.
  - by eapply z_enum_value.
  - by eapply z_enum_value.
  - by eapply z_enum_value.
  - by eapply z_enum_value.
  - by eapply z_min_value.
  - split; [by apply nonempty_length|]. array_members M12.
  - split; [by apply nonempty_length|]. array_members M13.
  - by eapply z_enum_value.
  - by eapply z_optional_trim_value.
  - by apply nonempty_length.
  - by eapply z_optional_trim_value.
  - by eapply z_enum_value.
  - by eapply z_enum_value.
  - by eapply z_optional_trim_value.
  - by eapply z_trim_value.
  - by eapply z_enum_value.
  - by eapply z_trim_value.
  - by eapply z_enum_value.
  - by eapply z_enum_value.
  - by eapply z_enum_value.
Qed.

(** Read the property [k] of [form_object f]. *)
Ltac read_form_object :=
  unfold prop;
  repeat match goal with
  | |- context [form_object ?f ?k] =>
      let v := eval cbv [form_object object_of List.find fst snd String.eqb
                         Ascii.eqb Bool.eqb default from_option id fmap
                         option_fmap option_map] in (form_object f k) in
      change (form_object f k) with v
  end.

Lemma enum_members_accepted values l :
  Forall (one_of values) l →
  Forall (λ y, ∀ q, z_enum values q (JString y) = ([], Some y)) l.
Proof.
  intros H. eapply Forall_impl; [exact H|].
  intros y Hy q. by apply z_enum_accepts.
Qed.

Lemma valid_form_accepted (input : IntakeForm.t) :
  valid_form input → safeParse (form_object input) = ParseSuccess input.
Proof.
  intros []. apply safeParse_success. split.
  - apply parse_object_ok.
    unfold CRM_ENUM, CONTACT_CENTER_ENUM, AGENT_WORKSPACE_ENUM,
      CRM_ACTIVITY_ENUM, OWNER_STRATEGY_ENUM, PHONE_NORM_ENUM,
      CONTEXT_PLACEMENT_ENUM, VOLUME_ENUM, LATENCY_ENUM, SENSITIVITY_ENUM,
      LOGGING_ENUM.
    read_form_object.
    repeat split;
      first
        [ by apply z_enum_accepts
        | by apply z_optional_trim_accepts
        | by apply z_trim_accepts
        | by apply z_min_accepts
        | reflexivity
        | idtac ].
    + rewrite valid_mode0. apply z_literal_accepts.
    + destruct valid_associations0 as [Hne Hall].
      apply z_array_min_accepts;
        [by apply nonempty_length|by apply enum_members_accepted].
    + destruct valid_matchingStrategy0 as [Hne Hall].
      apply z_array_min_accepts;
        [by apply nonempty_length|by apply enum_members_accepted].
    + apply z_array_min_accepts; [by apply nonempty_length|].
      by apply Forall_true.
  - by apply superRefine_silent.
Qed.

(** X1: a form the validator accepts satisfies every rule of the schema:
    its enum properties are members of their sets, [subjectTemplate] has
    at least 5 code units, the three arrays are non-empty (and hold
    members only), the trimmed strings have no whitespace at either end,
    and the five cross-field rules hold. *)
Theorem X1_validated_form_is_valid (data : object) (input : IntakeForm.t) :
  safeParse data = ParseSuccess input → valid_form input.
Proof. apply accepted_form_valid. Qed.

Lemma X1_witness :
  ∃ input, safeParse stray_values = ParseSuccess input ∧ valid_form input.
Proof.
  run_validator stray_values input Hparse Hinput.
  exists input. split; [exact Hparse|].
  exact (X1_validated_form_is_valid stray_values input Hparse).
Defined.

(** X2: the rules are complete and validation is idempotent: a form
    satisfies the rules exactly when the validator accepts it (as the
    object it is) and returns it unchanged; so validating the output of a
    successful validation again gives the same form. *)
Theorem X2_validation_is_idempotent (input : IntakeForm.t) :
  (valid_form input ↔ safeParse (form_object input) = ParseSuccess input)
  ∧ (∀ data : object,
       safeParse data = ParseSuccess input →
       safeParse (form_object input) = ParseSuccess input).
Proof.
  split; [split|].
  - apply valid_form_accepted.
  - apply accepted_form_valid.
  - intros data Hparse. by eapply valid_form_accepted, accepted_form_valid.
Qed.

Lemma X2_witness :
  ∃ input,
    safeParse external_id_values = ParseSuccess input
    ∧ IntakeForm.externalIdField input = Some (lit "customer_ref")
    ∧ safeParse (form_object input) = ParseSuccess input.
Proof.
  run_validator external_id_values input Hparse Hinput.
  exists input. split; [exact Hparse|].
  split; [by subst input|].
  exact (proj2 (X2_validation_is_idempotent input) external_id_values Hparse).
Defined.

(** An issue of one property is an issue of the object parse. *)
Ltac in_parse_object :=
  unfold parse_object; cbv zeta; cbn [fst];
  repeat lazymatch goal with
  | H : ?i ∈ (prop ?k _ _).1 |- ?i ∈ (prop ?k _ _).1 ++ _ =>
      apply elem_of_app; left; exact H
  | |- _ ∈ _ ++ _ => apply elem_of_app; right
  end;
  lazymatch goal with
  | H : ?i ∈ _ |- ?i ∈ _ => exact H
  end.

Lemma enum_dichotomy values p v :
  (∃ s, v = JString s ∧ one_of values s ∧ z_enum values p v = ([], Some s))
  ∨ (∃ i, (z_enum values p v).1 = [i] ∧ path i = p ∧ kind i ≠ custom
          ∧ (z_enum values p v).2 = None).
Proof.
  unfold z_enum. destruct v as [| | | |s| |];
    try (right; eexists; by repeat split).
  case_bool_decide.
  - left. by exists s.
  - right. eexists. by repeat split.
Qed.

Lemma literal_dichotomy value p v :
  (v = JString (lit value))
  ∨ (∃ i, (z_literal value p v).1 = [i] ∧ path i = p ∧ kind i ≠ custom).
Proof.
  unfold z_literal. destruct v as [| | | |s| |];
    try (right; eexists; by repeat split).
  destruct (str_eqb s (lit value)) eqn:He.
  - left. by apply str_eqb_eq in He as ->.
  - right. eexists. by repeat split.
Qed.

Lemma enum_property_case (data : object) k values :
  (∀ i, i ∈ (prop k (z_enum values) data).1 → i ∈ (parse_object data).1) →
  (∃ s, data k = JString s ∧ one_of values s)
  ∨ (∃ iss i,
       safeParse data = ParseError iss
       ∧ i ∈ iss ∧ path i = [PKey k] ∧ kind i ≠ custom).
Proof.
  intros Hshape.
  destruct (enum_dichotomy values [PKey k] (data k))
    as [(s & Hv & Hs & _)|(i & Hi & Hp & Hc & _)].
  - left. by exists s.
  - right. destruct (safeParse_reports data i) as (iss & Hparse & Hiss).
    + apply Hshape. unfold prop. rewrite Hi. by apply list_elem_of_singleton.
    + by exists iss, i.
Qed.

Lemma literal_property_case (data : object) k value :
  (∀ i, i ∈ (prop k (z_literal value) data).1 → i ∈ (parse_object data).1) →
  (∃ s, data k = JString s ∧ one_of [value] s)
  ∨ (∃ iss i,
       safeParse data = ParseError iss
       ∧ i ∈ iss ∧ path i = [PKey k] ∧ kind i ≠ custom).
Proof.
  intros Hshape.
  destruct (literal_dichotomy value [PKey k] (data k))
    as [Hv|(i & Hi & Hp & Hc)].
  - left. exists (lit value). split; [done|].
    by apply list_elem_of_singleton.
  - right. destruct (safeParse_reports data i) as (iss & Hparse & Hiss).
    + apply Hshape. unfold prop. rewrite Hi. by apply list_elem_of_singleton.
    + by exists iss, i.
Qed.

(** X3: every enum property (and the literal [mode]) either holds one of
    its declared values or makes the validation fail with an issue at
    that property: unknown values, missing values and values of another
    type are all rejected, property by property. *)
Theorem X3_enum_properties_checked (data : object) k values :
  (k, values) ∈ enum_properties →
  (∃ s, data k = JString s ∧ one_of values s)
  ∨ (∃ iss i,
       safeParse data = ParseError iss
       ∧ i ∈ iss ∧ path i = [PKey k] ∧ kind i ≠ custom).
Proof.
  unfold enum_properties. intros Hk.
  repeat (apply elem_of_cons in Hk as [[= -> ->]|Hk]);
    [..|by apply elem_of_nil in Hk].
  1: apply literal_property_case; intros i Hin; in_parse_object.
  all: apply enum_property_case; intros i Hin; in_parse_object.
Qed.

Lemma X3_witness :
  ∃ iss i,
    safeParse (with_prop "environment" (jstr "production") defaultValues)
    = ParseError iss
    ∧ i ∈ iss ∧ path i = [PKey "environment"] ∧ kind i ≠ custom.
Proof.
  destruct (X3_enum_properties_checked
              (with_prop "environment" (jstr "production") defaultValues)
              "environment" ["sandbox"; "demo"]%string)
    as [(s & Hs & Hin)|H].
  - unfold enum_properties. rewrite !elem_of_cons. do 4 right. by left.
  - exfalso. injection Hs as <-. unfold one_of in Hin. vm_compute in Hin.
    repeat (apply elem_of_cons in Hin as [Hin|Hin]; [discriminate Hin|]).
    by apply elem_of_nil in Hin.
  - exact H.
Defined.

(** ** The cross-field rules on the raw object *)

Lemma parse_object_companions data base val :
  parse_object data = (base, Some val) →
  (prop "crm" CRM_ENUM data).2 = Some (IntakeForm.crm val)
  ∧ (prop "otherCrmName" (z_optional (z_trim z_string)) data).2
    = Some (IntakeForm.otherCrmName val)
  ∧ (prop "contactCenter" CONTACT_CENTER_ENUM data).2
    = Some (IntakeForm.contactCenter val)
  ∧ (prop "otherContactCenterName" (z_optional (z_trim z_string)) data).2
    = Some (IntakeForm.otherContactCenterName val)
  ∧ (prop "matchingStrategy"
       (z_array_min (z_enum ["ani_phone_match"; "external_id"]) 1 None)
       data).2
    = Some (IntakeForm.matchingStrategy val)
  ∧ (prop "externalIdField" (z_optional (z_trim z_string)) data).2
    = Some (IntakeForm.externalIdField val)
  ∧ (prop "ownerStrategy" OWNER_STRATEGY_ENUM data).2
    = Some (IntakeForm.ownerStrategy val)
  ∧ (prop "fixedOwner" (z_optional (z_trim z_string)) data).2
    = Some (IntakeForm.fixedOwner val).
Proof.
  unfold parse_object. cbv zeta.
  repeat match goal with
  | |- context [prop ?k ?s data] => generalize (prop k s data); intros [? ?]
  end.
  cbn [fst snd]. intros H. injection H as _ Hval.
  walk_binds Hval. injection Hval as <-. by repeat split.
Qed.

Lemma z_enum_parsed values p v s :
  (z_enum values p v).2 = Some s → v = JString s.
Proof.
  unfold z_enum. destruct v as [| | | |x| |]; try done.
  case_bool_decide; [|done]. by intros [= ->].
Qed.

Lemma optional_string_parsed p v o :
  (z_optional (z_trim z_string) p v).2 = Some o →
  truthy_opt o = false ↔ blank v.
Proof.
  unfold z_optional, z_trim, z_string, blank.
  destruct v as [| | | |x| |]; cbn; try done.
  - intros [= <-]. split; [by left|done].
  - intros [= <-]. cbn. split.
    + intros Ht. right. exists x. split; [done|].
      by destruct (trim x).
    + intros [[=]|(raw & [= <-] & ->)]. done.
Qed.

Lemma enum_array_parsed values n msg p v l :
  (z_array_min (z_enum values) n msg p v).2 = Some l →
  v = JArray (JString <$> l).
Proof.
  unfold z_array_min. destruct v as [| | | | |xs|]; try done.
  cbn [snd]. intros Hl%mapM_imap_parsed. f_equal.
  induction Hl as [|x y xs l (q & Hx) Hl IH]; [done|].
  apply z_enum_parsed in Hx as ->. cbn. by f_equal.
Qed.

(** A [custom] issue of a failed validation is an issue of the
    refinement. *)
Lemma reports_custom data base val i :
  parse_object data = (base, Some val) →
  kind i = custom →
  reports data i ↔ i ∈ superRefine val.
Proof.
  intros Hp Hc. unfold reports. split.
  - intros (iss & [_ Hfrom]%safeParse_error & Hi).
    destruct (Hfrom i Hi) as [Hbase|(val' & Hv & Hin)].
    + pose proof (parse_object_issues data) as Hk.
      rewrite Forall_forall in Hk. by destruct (Hk i Hbase).
    + rewrite Hp in Hv. by injection Hv as <-.
  - intros Hi. unfold safeParse. rewrite Hp.
    destruct (base ++ superRefine val) as [|j all] eqn:Happ.
    + apply app_eq_nil in Happ as [_ Hnil]. rewrite Hnil in Hi.
      by apply elem_of_nil in Hi.
    + exists (j :: all). split; [done|]. rewrite <- Happ.
      apply elem_of_app. by right.
Qed.

Lemma elem_of_cond (c : bool) (x y : issue) :
  x ∈ (if c then [y] else []) ↔ c = true ∧ x = y.
Proof.
  destruct c.
  - rewrite list_elem_of_singleton. by intuition.
  - rewrite elem_of_nil. by intuition.
Qed.

Lemma rules_membership (c1 c2 c3 c4 c5 : bool) (i1 i2 i3 i4 i5 : issue) :
  i1 ≠ i2 → i1 ≠ i3 → i1 ≠ i4 → i1 ≠ i5 → i2 ≠ i3 → i2 ≠ i4 → i2 ≠ i5 →
  i3 ≠ i4 → i3 ≠ i5 → i4 ≠ i5 →
  let rules :=
    (if c1 then [i1] else []) ++ (if c2 then [i2] else [])
    ++ (if c3 then [i3] else []) ++ (if c4 then [i4] else [])
    ++ (if c5 then [i5] else []) in
  (i1 ∈ rules ↔ c1 = true) ∧ (i2 ∈ rules ↔ c2 = true)
  ∧ (i3 ∈ rules ↔ c3 = true) ∧ (i4 ∈ rules ↔ c4 = true).
Proof.
  intros. destruct c1, c2, c3, c4, c5; cbn;
    repeat match goal with |- _ ∧ _ => split end;
    (split;
     [|intros Hc; first [discriminate Hc | rewrite ?elem_of_cons; by auto 10]]);
    try done;
    intros Hin; exfalso;
    repeat (apply elem_of_cons in Hin as [Hin|Hin]; [congruence|]);
    by apply elem_of_nil in Hin.
Qed.

Lemma rule_fires (c t : bool) (P : Prop) :
  (c = true ↔ P) → (c && negb t = true ↔ P ∧ t = false).
Proof. intros <-. destruct c, t; cbn; by intuition. Qed.

(** When each companion rule puts its issue in the refinement. *)
Lemma superRefine_companions val :
  (addIssue "otherCrmName" "Please specify the CRM name" ∈ superRefine val
   ↔ IntakeForm.crm val = lit "other"
     ∧ truthy_opt (IntakeForm.otherCrmName val) = false)
  ∧ (addIssue "otherContactCenterName"
       "Please specify the contact center name" ∈ superRefine val
     ↔ IntakeForm.contactCenter val = lit "other"
       ∧ truthy_opt (IntakeForm.otherContactCenterName val) = false)
  ∧ (addIssue "externalIdField"
       "External ID field is required when using external ID matching"
       ∈ superRefine val
     ↔ lit "external_id" ∈ IntakeForm.matchingStrategy val
       ∧ truthy_opt (IntakeForm.externalIdField val) = false)
  ∧ (addIssue "fixedOwner"
       "Fixed owner is required when using fixed owner strategy"
       ∈ superRefine val
     ↔ IntakeForm.ownerStrategy val = lit "fixed_owner"
       ∧ truthy_opt (IntakeForm.fixedOwner val) = false).
Proof.
  unfold superRefine.
  match goal with
  | |- (?i1 ∈ (if ?c1 then _ else _) ++ (if ?c2 then [?i2] else _)
        ++ (if ?c3 then [?i3] else _) ++ (if ?c4 then [?i4] else _)
        ++ (if ?c5 then [?i5] else _) ↔ _) ∧ _ =>
      destruct (rules_membership c1 c2 c3 c4 c5 i1 i2 i3 i4 i5)
        as (R1 & R2 & R3 & R4); try discriminate
  end.
  cbv zeta in R1, R2, R3, R4.
  split; [|split; [|split]].
  - etrans; [exact R1|]. apply rule_fires, str_eqb_eq.
  - etrans; [exact R2|]. apply rule_fires, str_eqb_eq.
  - etrans; [exact R3|]. apply rule_fires, bool_decide_eq_true.
  - etrans; [exact R4|]. apply rule_fires, str_eqb_eq.
Qed.

(** X4: on an input whose properties all have their declared types, each
    companion rule reports its issue exactly when its sentinel is selected
    and the companion value is missing or blank (empty once trimmed): a
    name made of spaces only does not satisfy the rule. *)
Theorem X4_companion_rules (data : object) :
  (parse_object data).2 ≠ None →
  (reports data (addIssue "otherCrmName" "Please specify the CRM name")
   ↔ data "crm" = jstr "other" ∧ blank (data "otherCrmName"))
  ∧ (reports data
       (addIssue "otherContactCenterName"
          "Please specify the contact center name")
     ↔ data "contactCenter" = jstr "other"
       ∧ blank (data "otherContactCenterName"))
  ∧ (reports data
       (addIssue "externalIdField"
          "External ID field is required when using external ID matching")
     ↔ (∃ xs, data "matchingStrategy" = JArray xs ∧ jstr "external_id" ∈ xs)
       ∧ blank (data "externalIdField"))
  ∧ (reports data
       (addIssue "fixedOwner"
          "Fixed owner is required when using fixed owner strategy")
     ↔ data "ownerStrategy" = jstr "fixed_owner"
       ∧ blank (data "fixedOwner")).
Proof.
  destruct (parse_object data) as [base [val|]] eqn:Hp; [intros _|done].
  destruct (parse_object_companions _ _ _ Hp)
    as (Hcrm & Hcrmn & Hcc & Hccn & Hms & Hext & Hos & Hfo).
  unfold prop in *.
  apply z_enum_parsed in Hcrm, Hcc, Hos.
  apply enum_array_parsed in Hms.
  apply optional_string_parsed in Hcrmn, Hccn, Hext, Hfo.
  destruct (superRefine_companions val) as (S1 & S2 & S3 & S4).
  rewrite !(reports_custom data base val) by done.
  rewrite S1, S2, S3, S4, Hcrmn, Hccn, Hext, Hfo, Hcrm, Hcc, Hos, Hms.
  unfold jstr. repeat match goal with |- _ ∧ _ => split end.
  - split; intros [H ?]; (split; [|done]); congruence.
  - split; intros [H ?]; (split; [|done]); congruence.
  - split; intros [H ?]; (split; [|done]).
    + exists (JString <$> IntakeForm.matchingStrategy val).
      split; [done|]. by apply list_elem_of_fmap_2.
    + destruct H as (xs & [= <-] & Hin).
      apply list_elem_of_fmap in Hin as (y & [= <-] & Hy). done.
  - split; intros [H ?]; (split; [|done]); congruence.
Qed.

Lemma X4_witness :
  reports blank_crm_name_values
    (addIssue "otherCrmName" "Please specify the CRM name").
Proof.
  destruct (X4_companion_rules blank_crm_name_values) as ([_ Hcrm] & _).
  - vm_compute. discriminate.
  - apply Hcrm. split; [reflexivity|].
    right. exists (lit "   "). split; reflexivity.
Defined.

(** ** The array properties *)

Lemma imap_issue {A} (elem : schema A) (f : nat → list pathseg) xs i x j :
  xs !! i = Some x →
  j ∈ (elem (f i) x).1 →
  j ∈ concat (fst <$> imap (λ i x, elem (f i) x) xs).
Proof.
  revert f i. induction xs as [|y xs IH]; intros f i Hi Hj; [done|].
  cbn. apply elem_of_app. destruct i as [|i]; cbn in Hi.
  - injection Hi as ->. by left.
  - right. by apply (IH (f ∘ S) i).
Qed.

Lemma array_element_issue {A} (elem : schema A) n msg k (data : object) xs i x j :
  data k = JArray xs →
  xs !! i = Some x →
  j ∈ (elem [PKey k; PIndex i] x).1 →
  j ∈ (prop k (z_array_min elem n msg) data).1.
Proof.
  intros Hdata Hi Hj. unfold prop, z_array_min. rewrite Hdata. cbn [fst].
  apply elem_of_app. right.
  by apply (imap_issue elem (λ i, [PKey k] ++ [PIndex i]) xs i x j).
Qed.

Lemma array_empty_issue {A} (elem : schema A) msg k (data : object) :
  data k = JArray [] →
  Issue too_small [PKey k] msg ∈ (prop k (z_array_min elem 1 msg) data).1.
Proof.
  intros Hdata. unfold prop, z_array_min. rewrite Hdata. cbn.
  by apply list_elem_of_singleton.
Qed.

Lemma enum_element_issue values q x :
  (∀ s, x = JString s → ¬ one_of values s) →
  ∃ j, j ∈ (z_enum values q x).1 ∧ path j = q.
Proof.
  intros Hx. destruct (enum_dichotomy values q x)
    as [(s & -> & Hs & _)|(j & Hj & Hp & _)].
  - by destruct (Hx s eq_refl).
  - exists j. rewrite Hj. split; [by apply list_elem_of_singleton|done].
Qed.

(** X5: an empty [associations], [matchingStrategy] or [contextFields]
    array is rejected with a too-small issue at the property, and an
    element that is not an allowed value (for [contextFields]: not a
    string) is rejected with an issue at the path of the property and the
    index of the element. *)
Theorem X5_array_properties (data : object) :
  (data "associations" = JArray [] →
   reports data
     (Issue too_small [PKey "associations"]
        (Some "Select at least one association")))
  ∧ (data "matchingStrategy" = JArray [] →
     reports data (Issue too_small [PKey "matchingStrategy"] None))
  ∧ (data "contextFields" = JArray [] →
     reports data
       (Issue too_small [PKey "contextFields"]
          (Some "Select at least one context field")))
  ∧ (∀ xs i x,
       data "associations" = JArray xs → xs !! i = Some x →
       (∀ s, x = JString s → ¬ one_of ["contact"; "company"; "deal"] s) →
       ∃ j, reports data j ∧ path j = [PKey "associations"; PIndex i])
  ∧ (∀ xs i x,
       data "matchingStrategy" = JArray xs → xs !! i = Some x →
       (∀ s, x = JString s → ¬ one_of ["ani_phone_match"; "external_id"] s) →
       ∃ j, reports data j ∧ path j = [PKey "matchingStrategy"; PIndex i])
  ∧ (∀ xs i x,
       data "contextFields" = JArray xs → xs !! i = Some x →
       (∀ s, x ≠ JString s) →
       ∃ j, reports data j ∧ path j = [PKey "contextFields"; PIndex i]).
Proof.
  unfold reports.
  repeat match goal with |- _ ∧ _ => split end.
  - intros Hd. apply safeParse_reports.
    pose proof (array_empty_issue (z_enum ["contact"; "company"; "deal"])
                  (Some "Select at least one association")
                  "associations" data Hd) as Hin.
    in_parse_object.
  - intros Hd. apply safeParse_reports.
    pose proof (array_empty_issue (z_enum ["ani_phone_match"; "external_id"])
                  None "matchingStrategy" data Hd) as Hin.
    in_parse_object.
  - intros Hd. apply safeParse_reports.
    pose proof (array_empty_issue z_string
                  (Some "Select at least one context field")
                  "contextFields" data Hd) as Hin.
    in_parse_object.
  - intros xs i x Hd Hi Hx.
    destruct (enum_element_issue ["contact"; "company"; "deal"]
                [PKey "associations"; PIndex i] x Hx) as (j & Hj & Hp).
    exists j. split; [|done]. apply safeParse_reports.
    pose proof (array_element_issue _ 1
                  (Some "Select at least one association")
                  _ data xs i x j Hd Hi Hj) as Hin.
    in_parse_object.
  - intros xs i x Hd Hi Hx.
    destruct (enum_element_issue ["ani_phone_match"; "external_id"]
                [PKey "matchingStrategy"; PIndex i] x Hx) as (j & Hj & Hp).
    exists j. split; [|done]. apply safeParse_reports.
    pose proof (array_element_issue _ 1 None
                  _ data xs i x j Hd Hi Hj) as Hin.
    in_parse_object.
  - intros xs i x Hd Hi Hx.
    exists (Issue invalid_type [PKey "contextFields"; PIndex i] None).
    split; [|done]. apply safeParse_reports.
    assert (Issue invalid_type [PKey "contextFields"; PIndex i] None
            ∈ (z_string [PKey "contextFields"; PIndex i] x).1) as Hj.
    { unfold z_string. destruct x as [| | | |s| |];
        try (by apply list_elem_of_singleton).
      by destruct (Hx s). }
    pose proof (array_element_issue _ 1
                  (Some "Select at least one context field")
                  _ data xs i x _ Hd Hi Hj) as Hin.
    in_parse_object.
Qed.

Lemma X5_witness :
  reports (with_prop "associations" (JArray []) defaultValues)
    (Issue too_small [PKey "associations"]
       (Some "Select at least one association"))
  ∧ ∃ j,
      reports
        (with_prop "matchingStrategy"
           (JArray [jstr "ani_phone_match"; jstr "email"]) defaultValues) j
      ∧ path j = [PKey "matchingStrategy"; PIndex 1].
Proof.
  split.
  - by apply (X5_array_properties
                (with_prop "associations" (JArray []) defaultValues)).
  - destruct (X5_array_properties
                (with_prop "matchingStrategy"
                   (JArray [jstr "ani_phone_match"; jstr "email"])
                   defaultValues)) as (_ & _ & _ & _ & Hms & _).
    apply (Hms [jstr "ani_phone_match"; jstr "email"] 1 (jstr "email"));
      [reflexivity..|].
    intros s [= <-] Hin. unfold one_of in Hin. vm_compute in Hin.
    repeat (apply elem_of_cons in Hin as [Hin|Hin]; [discriminate Hin|]).
    by apply elem_of_nil in Hin.
Defined.

(** ** Further properties of the normalizer *)

Section custom_fields.

Lemma split_no_sep_id sep s : sep ∉ s → split sep s = [s].
Proof.
  induction s as [|c s IH]; [done|]. intros Hs. cbn.
  destruct (N.eqb_spec c sep) as [->|_].
  - destruct Hs. by left.
  - rewrite IH; [done|]. intros Hin. apply Hs. by right.
Qed.

Lemma split_app_sep sep seg r :
  sep ∉ seg → split sep (seg ++ sep :: r) = seg :: split sep r.
Proof.
  induction seg as [|c seg IH]; intros Hs; cbn.
  - by rewrite N.eqb_refl.
  - destruct (N.eqb_spec c sep) as [->|_].
    + destruct Hs. by left.
    + rewrite IH; [done|]. intros Hin. apply Hs. by right.
Qed.

Lemma split_join sep segs :
  segs ≠ [] → Forall (λ seg, sep ∉ seg) segs →
  split sep (join sep segs) = segs.
Proof.
  induction segs as [|seg segs IH]; [done|]. intros _ Hall.
  inversion Hall as [|? ? Hseg Hsegs]; subst.
  destruct segs as [|seg' segs].
  - by apply split_no_sep_id.
  - rewrite join_cons by done. rewrite split_app_sep by done.
    by rewrite IH.
Qed.

Lemma trim_sublist s c : c ∈ trim s → c ∈ s.
Proof.
  destruct (trim_spec s) as ((pre & post & Hs & _) & _).
  intros Hc. rewrite Hs, !elem_of_app. auto.
Qed.

End custom_fields.

Lemma customFields_clean o (field : jsstring) :
  field ∈ customFields o →
  field ≠ [] ∧ (comma ∉ field) ∧ is_trimmed field.
Proof.
  unfold customFields. rewrite filter_truthy_str.
  intros [Hne Hin]%list_elem_of_filter.
  apply list_elem_of_fmap in Hin as (seg & -> & Hseg).
  split; [done|]. split; [|apply trim_is_trimmed].
  intros Hc%trim_sublist.
  pose proof (split_no_sep comma (or_empty o)) as Hall.
  rewrite Forall_forall in Hall. by apply (Hall seg).
Qed.

(** X6: every custom field of the document is non-empty, holds no comma
    and has no whitespace at either end, whatever the text of
    [customContextFields] is. *)
Theorem X6_custom_fields_clean
    (input : IntakeForm.t) (h : heap) (field : jsstring) :
  field ∈ Normalized.customFields
            (Normalized.contextInjection (blueprint h input)) →
  field ≠ [] ∧ (comma ∉ field) ∧ is_trimmed field.
Proof. apply customFields_clean. Qed.

Lemma X6_witness :
  ∃ input,
    safeParse custom_fields_values = ParseSuccess input
    ∧ lit "b" ∈ Normalized.customFields
                  (Normalized.contextInjection (blueprint [] input))
    ∧ is_trimmed (lit "b").
Proof.
  run_validator custom_fields_values input Hparse Hinput.
  exists input. split; [exact Hparse|].
  assert (lit "b" ∈ Normalized.customFields
                      (Normalized.contextInjection (blueprint [] input)))
    as Hin.
  { assert (Normalized.customFields
              (Normalized.contextInjection (blueprint [] input))
            = [lit "a"; lit "b"]) as -> by (by subst input).
    rewrite !elem_of_cons. right. by left. }
  split; [exact Hin|].
  by destruct (X6_custom_fields_clean input [] (lit "b") Hin) as (_ & _ & Ht).
Defined.

Lemma clean_fields_kept (fields : list jsstring) :
  Forall (λ f, f ≠ [] ∧ (comma ∉ f) ∧ is_trimmed f) fields →
  List.filter truthy_str (map trim fields) = fields.
Proof.
  induction 1 as [|g gs (Hne & _ & Ht) Hgs IH]; [done|].
  cbn [map]. rewrite (proj2 (trim_fixpoint g) Ht). cbn.
  destruct g; [done|]. cbn. by rewrite IH.
Qed.

(** X7: normalizing the custom fields is idempotent: the fields of a
    document, joined with commas and given back as
    [customContextFields], yield the same fields (and any list of
    non-empty, comma-free, trimmed names is what its comma-joined text
    yields). *)
Theorem X7_custom_fields_round_trip (fields : list jsstring) :
  Forall (λ f, f ≠ [] ∧ (comma ∉ f) ∧ is_trimmed f) fields →
  customFields (Some (join comma fields)) = fields.
Proof.
  intros Hall. unfold customFields.
  assert (or_empty (Some (join comma fields)) = join comma fields) as ->.
  { cbn. by destruct (join comma fields). }
  destruct fields as [|f fields]; [done|].
  rewrite split_join; [by apply clean_fields_kept|done|].
  eapply Forall_impl; [exact Hall|]. by intros g (_ & ? & _).
Qed.

Lemma X7_witness :
  customFields (Some (join comma (customFields (Some (lit " a, ,b ,")))))
  = customFields (Some (lit " a, ,b ,")).
Proof.
  apply X7_custom_fields_round_trip.
  apply Forall_forall. intros f Hf. by apply customFields_clean in Hf.
Defined.

Lemma conditional_field (c : bool) (o : option jsstring) (P : Prop) :
  (c = true ↔ P) →
  (P → ∃ s, o = Some s ∧ s ≠ []) →
  opt_trimmed o →
  ((if c then or_null o else Null) ≠ Null ↔ P)
  ∧ (∀ s, (if c then or_null o else Null) = Val s → s ≠ [] ∧ is_trimmed s).
Proof.
  intros Hc Hrule Ht. destruct c.
  - assert P as HP by (by apply Hc).
    destruct (Hrule HP) as (s & -> & Hs). cbn. split.
    + split; [done|]. by intros _.
    + intros s' [= <-]. split; [done|]. by apply Ht.
  - split; [|done]. split; [done|].
    intros HP. apply Hc in HP. discriminate HP.
Qed.

(** X8: in the document of a validated input each conditional field is
    present exactly when its option is selected ([otherCrmName] and
    [otherContactCenterName] with "other", [externalIdField] with
    external-ID matching, [fixedOwner] with the fixed-owner strategy), and
    is then a non-empty string without whitespace at either end;
    [interactionIdField] is present exactly when [storeCallId] is set and
    is then the input's [callIdField], which may be empty. *)
Theorem X8_conditional_fields_present
    (data : object) (input : IntakeForm.t) (h : heap) :
  safeParse data = ParseSuccess input →
  let d := blueprint h input in
  let filled (v : nullable jsstring) (P : Prop) :=
    (v ≠ Null ↔ P) ∧ (∀ s, v = Val s → s ≠ [] ∧ is_trimmed s) in
  filled (Normalized.otherCrmName (Normalized.systems d))
    (IntakeForm.crm input = lit "other")
  ∧ filled (Normalized.otherContactCenterName (Normalized.systems d))
      (IntakeForm.contactCenter input = lit "other")
  ∧ filled (Normalized.externalIdField (Normalized.matching d))
      (lit "external_id" ∈ IntakeForm.matchingStrategy input)
  ∧ filled (Normalized.fixedOwner (Normalized.ownership d))
      (IntakeForm.ownerStrategy input = lit "fixed_owner")
  ∧ (Normalized.interactionIdField (Normalized.ownership d) ≠ Null
     ↔ IntakeForm.storeCallId input = true)
  ∧ (∀ s, Normalized.interactionIdField (Normalized.ownership d) = Val s →
          s = IntakeForm.callIdField input).
Proof.
  intros Hvalid%accepted_form_valid. destruct Hvalid.
  cbn zeta. unfold blueprint, buildNormalizedIntake, alloc_array, read_document.
  cbn [Normalized.systems Normalized.ownership Normalized.matching
       Normalized.otherCrmName Normalized.otherContactCenterName
       Normalized.fixedOwner Normalized.externalIdField
       Normalized.interactionIdField].
  split; [|split; [|split; [|split; [|split]]]].
  - by apply (conditional_field _ _ _ (str_eqb_eq _ _)).
  - by apply (conditional_field _ _ _ (str_eqb_eq _ _)).
  - by apply (conditional_field _ _ _ (bool_decide_eq_true _)).
  - by apply (conditional_field _ _ _ (str_eqb_eq _ _)).
  - by destruct (IntakeForm.storeCallId input).
  - destruct (IntakeForm.storeCallId input); [|done]. by intros s [= <-].
Qed.

Lemma X8_witness :
  ∃ input,
    safeParse external_id_values = ParseSuccess input
    ∧ Normalized.externalIdField (Normalized.matching (blueprint [] input))
      ≠ Null
    ∧ Normalized.fixedOwner (Normalized.ownership (blueprint [] input))
      = Null.
Proof.
  run_validator external_id_values input Hparse Hinput.
  exists input. split; [exact Hparse|].
  destruct (X8_conditional_fields_present external_id_values input [] Hparse)
    as (_ & _ & [Hext _] & _).
  split.
  - apply Hext. subst input. cbn. by apply list_elem_of_singleton.
  - by subst input.
Defined.

(** ** The summary page *)

Section pickFirst_laws.

Lemma pickFirst_app_absent xs ys :
  Forall (λ x, is_present x = false) xs → pickFirst (xs ++ ys) = pickFirst ys.
Proof. induction 1 as [|x xs Hx _ IH]; cbn; [done|]. by rewrite Hx. Qed.

Lemma pickFirst_app_present xs ys :
  is_present (pickFirst xs) = true → pickFirst (xs ++ ys) = pickFirst xs.
Proof.
  induction xs as [|x xs IH]; cbn; [done|].
  destruct (is_present x); [done|]. apply IH.
Qed.

Lemma pickFirst_result values :
  is_present (pickFirst values) = true ∨ pickFirst values = JUndefined.
Proof.
  induction values as [|x xs IH]; cbn; [by right|].
  destruct (is_present x) eqn:Hx; [by left|apply IH].
Qed.

Lemma pickFirst_undefined values :
  pickFirst values = JUndefined → Forall (λ x, is_present x = false) values.
Proof.
  induction values as [|x xs IH]; cbn; [constructor|].
  destruct (is_present x) eqn:Hx.
  - intros ->. done.
  - intros H. constructor; [done|by apply IH].
Qed.

Lemma pickFirst_nested xs ys zs :
  pickFirst (xs ++ pickFirst ys :: zs) = pickFirst (xs ++ ys ++ zs).
Proof.
  induction xs as [|x xs IH]; cbn; [|by destruct (is_present x)].
  destruct (pickFirst_result ys) as [Hp|Hu].
  - rewrite Hp. by rewrite pickFirst_app_present.
  - rewrite Hu. cbn. apply pickFirst_undefined in Hu.
    by rewrite pickFirst_app_absent.
Qed.

End pickFirst_laws.

(** X9: the duplicate-prevention key of the summary is the first present
    value (defined, not null, not the empty string) among
    [reliability.idempotencyKey], [ownership.interactionIdField],
    [ownership.callIdField] and the legacy top-level [interactionIdField]
    and [callIdField], in this order: a fallback nested in a fallback is
    the fallback over the flattened list. *)
Theorem X9_duplicate_prevention_key (data : jsval) :
  (∀ xs ys zs,
     pickFirst (xs ++ pickFirst ys :: zs) = pickFirst (xs ++ ys ++ zs))
  ∧ BlueprintPage.duplicatePreventionKey data
    = pickFirst [ get (get data "reliability") "idempotencyKey";
                  get (get data "ownership") "interactionIdField";
                  get (get data "ownership") "callIdField";
                  get data "interactionIdField";
                  get data "callIdField" ].
Proof.
  split; [apply pickFirst_nested|].
  unfold BlueprintPage.duplicatePreventionKey, BlueprintPage.ownership.
  cbn [BlueprintPage.interactionIdField].
  etrans; [exact (pickFirst_nested [_] [_; _; _; _] [])|reflexivity].
Qed.

(** Read properties off the document of a call. *)
Ltac read_document :=
  unfold blueprint, buildNormalizedIntake, alloc_array, read_document;
  cbv [get document_json List.find fst snd String.eqb Ascii.eqb Bool.eqb
       default from_option id fmap option_fmap option_map
       Normalized.version Normalized.mode Normalized.systems
       Normalized.trigger Normalized.crmActivity Normalized.matching
       Normalized.contextInjection Normalized.ownership
       Normalized.reliability Normalized.security Normalized.warnings
       Normalized.crm Normalized.otherCrmName Normalized.contactCenter
       Normalized.otherContactCenterName Normalized.agentWorkspace
       Normalized.environment Normalized.event Normalized.interactionType
       Normalized.direction Normalized.objectType Normalized.subjectTemplate
       Normalized.associations Normalized.strategy
       Normalized.phoneNormalization Normalized.externalIdField
       Normalized.fields Normalized.customFields Normalized.placement
       Normalized.ownerStrategy Normalized.fixedOwner
       Normalized.storeInteractionId Normalized.interactionIdField
       Normalized.expectedVolume Normalized.idempotencyKey
       Normalized.latencyTarget Normalized.dataSensitivity
       Normalized.logging].

Section summary_page.

Variable Number_toString : Z → jsstring.
Variable JSON_stringify : jsval → jsstring.

#[local] Abbreviation formatValue := (BlueprintPage.formatValue Number_toString JSON_stringify).
#[local] Abbreviation to_string := (BlueprintPage.to_string Number_toString).
#[local] Abbreviation array_join := (BlueprintPage.array_join Number_toString).
#[local] Abbreviation toCustomerMatchingLine :=
  (BlueprintPage.toCustomerMatchingLine Number_toString).

Lemma lit_nil v : lit v = [] → v = EmptyString.
Proof. by destruct v. Qed.

Lemma one_of_nonempty values s :
  one_of values s → EmptyString ∉ values → s ≠ [].
Proof.
  intros (v & -> & Hv)%list_elem_of_fmap Hne Hs.
  apply lit_nil in Hs as ->. done.
Qed.

Lemma is_present_string s : s ≠ [] → is_present (JString s) = true.
Proof. by destruct s. Qed.

Lemma array_join_strings sep l :
  array_join sep (JString <$> l) = join_str sep l.
Proof.
  unfold BlueprintPage.array_join. f_equal.
  induction l as [|s l IH]; cbn; [done|]. by rewrite IH.
Qed.

Lemma join_str_nonempty sep l :
  l ≠ [] → Forall (λ s, s ≠ []) l → join_str sep l ≠ [].
Proof.
  destruct l as [|s l]; [done|]. intros _ Hall.
  inversion Hall as [|? ? Hs _]; subst.
  destruct s as [|c s]; [done|]. by destruct l.
Qed.

Lemma includes_strings l s :
  includes (JString <$> l) s = bool_decide (lit s ∈ l).
Proof.
  unfold includes. induction l as [|t l IH]; cbn; [done|].
  rewrite IH. unfold str_eqb.
  repeat case_bool_decide; cbn; try done; exfalso.
  - match goal with H : ¬ (_ ∈ _ :: _) |- _ => apply H end.
    rewrite elem_of_cons. auto.
  - match goal with H : ¬ (_ ∈ _ :: _) |- _ => apply H end.
    rewrite elem_of_cons. auto.
  - match goal with H : ¬ (_ ∈ _ :: _) |- _ => apply H end.
    rewrite elem_of_cons. auto.
  - match goal with
    | H : _ ∈ _ :: _ |- _ => apply elem_of_cons in H as [?|?]
    end; congruence.
Qed.

Lemma includes_perm xs ys s : xs ≡ₚ ys → includes xs s = includes ys s.
Proof.
  unfold includes. induction 1 as [|x xs ys _ IH|x y xs|xs ys zs _ IH1 _ IH2];
    cbn; [done|by rewrite IH| |congruence].
  by destruct (is_str x s), (is_str y s).
Qed.

(** X13: whatever the input, the document of the normalizer has no
    [trigger.channel] (the interaction type is stored as
    [trigger.interactionType], which the page does not read), so the
    channel line of its summary is always "N/A". *)
Theorem X13_channel_never_shown (input : IntakeForm.t) (h : heap) :
  let data := document_json (blueprint h input) in
  formatValue (get (get data "trigger") "channel") = lit "N/A"
  ∧ get (get data "trigger") "interactionType"
    = JString (if IntakeForm.voiceOnly input
               then lit "voice" else lit "generic").
Proof. cbn zeta. read_document. by split. Qed.

(** X10: on the document of a validated input the customer-matching line
    is one of the three fixed phrases, chosen by which of the two
    strategies are selected; it is never "Not specified" and never a raw
    strategy code. *)
Theorem X10_matching_line_of_document
    (data : object) (input : IntakeForm.t) (h : heap) :
  safeParse data = ParseSuccess input →
  let doc := document_json (blueprint h input) in
  let phone := bool_decide (lit "ani_phone_match" ∈ IntakeForm.matchingStrategy input) in
  let external := bool_decide (lit "external_id" ∈ IntakeForm.matchingStrategy input) in
  toCustomerMatchingLine (get (get doc "matching") "strategy")
  = (if external
     then if phone
          then lit "Phone number and external customer ID -> CRM contact"
          else lit "External customer ID -> CRM contact"
     else lit "Phone number -> CRM contact").
Proof.
  intros Hvalid%accepted_form_valid.
  destruct (valid_matchingStrategy _ Hvalid) as [Hne Hall].
  cbn zeta. read_document. unfold strings_json.
  unfold BlueprintPage.toCustomerMatchingLine.
  rewrite !includes_strings, length_fmap. cbn [truthy negb orb].
  destruct (IntakeForm.matchingStrategy input) as [|s l] eqn:Hl; [done|].
  cbn [length Nat.eqb].
  destruct (bool_decide (lit "external_id" ∈ s :: l)) eqn:He;
    destruct (bool_decide (lit "ani_phone_match" ∈ s :: l)) eqn:Hp;
    cbn; try done.
  exfalso. apply bool_decide_eq_false in He, Hp.
  inversion Hall as [|? ? Hs _]; subst. unfold one_of in Hs. cbn in Hs.
  rewrite !elem_of_cons, elem_of_nil in Hs.
  destruct Hs as [->|[->|[]]]; [apply Hp|apply He]; by left.
Qed.

(** X11: the customer-matching line in general: a value that is falsy,
    or an empty array, gives "Not specified"; a single strategy given as
    a string reads like the one-element array; and as soon as one of the
    two known strategies is listed the line depends only on which are
    listed, not on order, repetition or other entries. *)
Theorem X11_matching_line :
  (∀ v, truthy v = false → toCustomerMatchingLine v = lit "Not specified")
  ∧ toCustomerMatchingLine (JArray []) = lit "Not specified"
  ∧ (∀ s, s ≠ [] →
       toCustomerMatchingLine (JString s)
       = toCustomerMatchingLine (JArray [JString s]))
  ∧ (∀ xs ys,
       includes xs "ani_phone_match" || includes xs "external_id" = true →
       includes ys "ani_phone_match" = includes xs "ani_phone_match" →
       includes ys "external_id" = includes xs "external_id" →
       toCustomerMatchingLine (JArray ys) = toCustomerMatchingLine (JArray xs))
  ∧ (∀ xs ys,
       xs ≡ₚ ys →
       includes xs "ani_phone_match" || includes xs "external_id" = true →
       toCustomerMatchingLine (JArray ys) = toCustomerMatchingLine (JArray xs)).
Proof.
  assert (∀ xs ys,
       includes xs "ani_phone_match" || includes xs "external_id" = true →
       includes ys "ani_phone_match" = includes xs "ani_phone_match" →
       includes ys "external_id" = includes xs "external_id" →
       toCustomerMatchingLine (JArray ys) = toCustomerMatchingLine (JArray xs))
    as Hknown.
  { intros xs ys Hk Hp He. unfold BlueprintPage.toCustomerMatchingLine.
    cbn [truthy negb orb]. rewrite Hp, He.
    destruct xs as [|x xs]; [done|]. destruct ys as [|y ys].
    - rewrite <- Hp, <- He in Hk. done.
    - cbn [length Nat.eqb].
      destruct (includes (x :: xs) "ani_phone_match"),
        (includes (x :: xs) "external_id"); done. }
  split; [|split; [|split; [|split]]].
  - intros v Hv. unfold BlueprintPage.toCustomerMatchingLine.
    by rewrite Hv.
  - reflexivity.
  - intros [|c s] Hs; [done|]. reflexivity.
  - exact Hknown.
  - intros xs ys Hperm Hk.
    apply Hknown; [done|..]; symmetry; by apply includes_perm.
Qed.

End summary_page.

Lemma X10_witness :
  ∃ input,
    safeParse external_id_values = ParseSuccess input
    ∧ BlueprintPage.toCustomerMatchingLine (λ _, [])
        (get (get (document_json (blueprint [] input)) "matching") "strategy")
      = lit "External customer ID -> CRM contact".
Proof.
  run_validator external_id_values input Hparse Hinput.
  exists input. split; [exact Hparse|].
  pose proof (X10_matching_line_of_document (λ _, []) external_id_values
                input [] Hparse) as Hline.
  cbv zeta in Hline. rewrite Hline. subst input. reflexivity.
Defined.

Lemma X11_witness :
  lit "external_id" ≠ []
  ∧ BlueprintPage.toCustomerMatchingLine (λ _, []) (jstr "external_id")
    = BlueprintPage.toCustomerMatchingLine (λ _, [])
        (JArray [jstr "external_id"])
  ∧ includes [jstr "external_id"; jstr "other"] "ani_phone_match"
    || includes [jstr "external_id"; jstr "other"] "external_id" = true
  ∧ BlueprintPage.toCustomerMatchingLine (λ _, [])
      (JArray [jstr "external_id"])
    = BlueprintPage.toCustomerMatchingLine (λ _, [])
        (JArray [jstr "external_id"; jstr "other"]).
Proof.
  destruct (X11_matching_line (λ _, [])) as (_ & _ & Hone & Hknown & _).
  split; [discriminate|]. split; [apply Hone; discriminate|].
  split; [reflexivity|]. apply Hknown; reflexivity.
Defined.

(** Split a membership in an enum into its cases. *)
Ltac enum_cases H :=
  unfold one_of in H; cbn [map] in H;
  rewrite !elem_of_cons, elem_of_nil in H;
  repeat match type of H with
  | _ ∨ _ => destruct H as [H|H]
  end;
  first [contradiction | subst].

Section guarantees.

Variable Number_toString : Z → jsstring.

(** The guarantees are five optional sentences in a fixed order. *)
Lemma operationalGuarantees_sentences (data : jsval) :
  let idempotencyKey := get (get data "reliability") "idempotencyKey" in
  let latencyTarget := get (get data "reliability") "latencyTarget" in
  let expectedVolume := get (get data "reliability") "expectedVolume" in
  let logging := get (get data "security") "logging" in
  let owner := BlueprintPage.ownerStrategy (BlueprintPage.ownership data) in
  BlueprintPage.operationalGuarantees Number_toString data
  = (if truthy idempotencyKey
     then [JString (lit "Uses duplicate prevention key "
                    ++ BlueprintPage.to_string Number_toString idempotencyKey
                    ++ lit " to avoid double-logging the same interaction")]
     else [])
    ++ (if truthy (get (get data "trigger") "event") || truthy latencyTarget
        then [JString (lit "Agent context appears on interaction acceptance"
                       ++ (if truthy latencyTarget
                           then lit " (target: "
                                ++ BlueprintPage.to_string Number_toString latencyTarget
                                ++ lit ")"
                           else []))]
        else [])
    ++ (if is_str expectedVolume "100_1000" || is_str expectedVolume "1000_10000"
           || is_str expectedVolume "gt_10000" || is_str latencyTarget "under_2s"
           || is_str latencyTarget "under_500ms"
        then [jstr "Built for higher volume with asynchronous processing and retry-safe behavior"]
        else [])
    ++ (if is_str logging "mask_pii" then [jstr "PII is masked in logs"]
        else if is_str logging "no_payload_logging"
        then [jstr "No payload logging"] else [])
    ++ (if truthy owner then [BlueprintPage.toOwnerStrategyLabel owner] else []).
Proof.
  cbv zeta. unfold BlueprintPage.operationalGuarantees. cbv zeta.
  generalize (BlueprintPage.ownerStrategy (BlueprintPage.ownership data)).
  intros owner.
  destruct (truthy (get (get data "reliability") "idempotencyKey"));
    destruct (truthy (get (get data "trigger") "event")
              || truthy (get (get data "reliability") "latencyTarget"));
    destruct (is_str (get (get data "reliability") "expectedVolume") "100_1000"
              || is_str (get (get data "reliability") "expectedVolume") "1000_10000"
              || is_str (get (get data "reliability") "expectedVolume") "gt_10000"
              || is_str (get (get data "reliability") "latencyTarget") "under_2s"
              || is_str (get (get data "reliability") "latencyTarget") "under_500ms");
    destruct (is_str (get (get data "security") "logging") "mask_pii");
    destruct (is_str (get (get data "security") "logging") "no_payload_logging");
    destruct (truthy owner); reflexivity.
Qed.

(** X12: the operational guarantees listed for the document of a
    validated input: the duplicate-prevention sentence exactly when the
    idempotency key is not empty, then always the agent-context sentence
    with the latency target, the higher-volume sentence unless the volume
    is the lowest and the latency best effort, the sentence of the logging
    mode, and the phrase of the owner strategy; so between three and five
    sentences, in this order. *)
Theorem X12_guarantees_of_document
    (data : object) (input : IntakeForm.t) (h : heap) :
  safeParse data = ParseSuccess input →
  let doc := document_json (blueprint h input) in
  let guarantees :=
    BlueprintPage.operationalGuarantees Number_toString doc in
  guarantees
  = (match IntakeForm.idempotencyKey input with
     | [] => []
     | key =>
         [JString (lit "Uses duplicate prevention key " ++ key
                   ++ lit " to avoid double-logging the same interaction")]
     end)
    ++ [JString (lit "Agent context appears on interaction acceptance (target: "
                 ++ IntakeForm.latencyTarget input ++ lit ")")]
    ++ (if bool_decide (IntakeForm.expectedVolume input = lit "lt_100"
                        ∧ IntakeForm.latencyTarget input = lit "best_effort")
        then []
        else [jstr "Built for higher volume with asynchronous processing and retry-safe behavior"])
    ++ [if bool_decide (IntakeForm.logging input = lit "mask_pii")
        then jstr "PII is masked in logs" else jstr "No payload logging"]
    ++ [if bool_decide (IntakeForm.ownerStrategy input = lit "map_agent_email")
        then jstr "Assign to the agent who handled the interaction"
        else if bool_decide (IntakeForm.ownerStrategy input = lit "fixed_owner")
        then jstr "Always assign to a fixed CRM owner or queue"
        else jstr "Leave CRM activity unassigned"]
  ∧ 3 ≤ length guarantees ≤ 5.
Proof.
  intros Hvalid%accepted_form_valid.
  pose proof (valid_expectedVolume _ Hvalid) as Hvolume.
  pose proof (valid_latencyTarget _ Hvalid) as Hlatency.
  pose proof (valid_logging _ Hvalid) as Hlogging.
  pose proof (valid_ownerStrategy _ Hvalid) as Howner.
  clear Hvalid.
  assert (truthy (JString (IntakeForm.latencyTarget input)) = true) as Htarget.
  { apply one_of_nonempty in Hlatency;
      [|by apply (bool_decide_unpack _)].
    by destruct (IntakeForm.latencyTarget input). }
  cbn zeta. rewrite operationalGuarantees_sentences. cbv zeta.
  unfold BlueprintPage.ownership. cbn [BlueprintPage.ownerStrategy].
  read_document.
  rewrite !Htarget, !orb_true_r. clear Htarget.
  set (volume := IntakeForm.expectedVolume input) in *;
  set (latency := IntakeForm.latencyTarget input) in *;
  set (logging := IntakeForm.logging input) in *;
  set (owner := IntakeForm.ownerStrategy input) in *;
  set (key := IntakeForm.idempotencyKey input) in *;
  clearbody volume latency logging owner key.
  enum_cases Hvolume; enum_cases Hlatency; enum_cases Hlogging;
    enum_cases Howner; destruct key as [|c key];
    (split; [vm_compute; reflexivity|vm_compute; lia]).
Qed.

End guarantees.

Lemma X12_witness :
  ∃ input,
    safeParse defaultValues = ParseSuccess input
    ∧ length (BlueprintPage.operationalGuarantees (λ _, [])
                (document_json (blueprint [] input))) = 5.
Proof.
  run_validator defaultValues input Hparse Hinput.
  exists input. split; [exact Hparse|].
  destruct (X12_guarantees_of_document (λ _, []) defaultValues input []
              Hparse) as [Hsentences _].
  cbv zeta in Hsentences. rewrite Hsentences. subst input. reflexivity.
Defined.

(** ** The steps of the form and the issues of the validation *)

(** Every issue of the object parse is on [mode] or on a field that a
    step shows. *)
Lemma parse_object_issue_fields data :
  Forall (λ i, ∃ field,
            keyed_to field i
            ∧ (field = "mode"%string ∨ Exists (λ step, field ∈ fields step) steps))
    (parse_object data).1.
Proof.
  unfold parse_object. cbv zeta. cbn [fst].
  repeat (apply Forall_app; split);
    (eapply Forall_impl; [apply prop_issues; solve_wf|]);
    intros i [_ Hk]; eexists; (split; [exact Hk|]);
    first [by left | right; by apply (bool_decide_unpack _)].
Qed.

(** X14: every issue a failed validation reports is on a form field, and
    that field is shown by one of the steps of the wizard, the only
    exception being [mode], which no step shows. *)
Theorem X14_issues_on_step_fields (data : object) (iss : list issue) (i : issue) :
  safeParse data = ParseError iss →
  i ∈ iss →
  ∃ field,
    keyed_to field i
    ∧ (field = "mode"%string ∨ Exists (λ step, field ∈ fields step) steps)
    ∧ (field = "mode"%string → ¬ Exists (λ step, field ∈ fields step) steps).
Proof.
  intros [_ Hiss]%safeParse_error Hi.
  assert (∃ field,
            keyed_to field i
            ∧ (field = "mode"%string ∨ Exists (λ step, field ∈ fields step) steps))
    as (field & Hk & Hfield).
  { destruct (Hiss i Hi) as [Hobj|(val & _ & Hrule)].
    - pose proof (parse_object_issue_fields data) as Hall.
      rewrite Forall_forall in Hall. by apply Hall.
    - apply superRefine_issues in Hrule as [_ Hrule].
      destruct Hrule as [Hk|[Hk|[Hk|[Hk|Hk]]]];
        eexists; (split; [exact Hk|]); right;
        by apply (bool_decide_unpack _). }
  exists field. split; [exact Hk|]. split; [exact Hfield|].
  intros ->. by apply (bool_decide_unpack _).
Qed.

Lemma X14_witness :
  ∃ iss i,
    safeParse (with_prop "mode" (jstr "live") defaultValues) = ParseError iss
    ∧ i ∈ iss
    ∧ ∃ field, keyed_to field i
               ∧ (field = "mode"%string ∨ Exists (λ step, field ∈ fields step) steps).
Proof.
  assert (∃ iss i,
            safeParse (with_prop "mode" (jstr "live") defaultValues)
            = ParseError (i :: iss)) as (iss & i & Hparse).
  { vm_compute. eexists _, _. reflexivity. }
  exists (i :: iss), i. split; [exact Hparse|].
  assert (i ∈ i :: iss) as Hi by apply list_elem_of_here.
  split; [exact Hi|].
  destruct (X14_issues_on_step_fields _ _ _ Hparse Hi)
    as (field & Hk & Hfield & _).
  by exists field.
Defined.

(** ** The values of the summary page *)

Lemma pickFirst_string s rest : s ≠ [] → pickFirst (JString s :: rest) = JString s.
Proof. by destruct s. Qed.

Lemma pickFirst_skip rest : pickFirst (JUndefined :: rest) = pickFirst rest.
Proof. reflexivity. Qed.

Lemma app_nonempty_r (s t : jsstring) : t ≠ [] → s ++ t ≠ [].
Proof. intros Ht Hs. by apply app_eq_nil in Hs as [_ ?]. Qed.

(** A member of an enum without the empty string is not empty. *)
Ltac enum_nonempty H :=
  apply one_of_nonempty in H; [|by apply (bool_decide_unpack _)].

Section summary_values.

Variable Number_toString : Z → jsstring.
Variable JSON_stringify : jsval → jsstring.


End summary_values.


Section duplicate_prevention.

Variable Number_toString : Z → jsstring.

(** X16: the duplicate-prevention line of the summary of a normalized
    document names the idempotency key when it is not empty, otherwise the
    interaction ID field when it is stored and not empty, and reads
    "Not specified" otherwise. *)
Theorem X16_duplicate_prevention_line
    (input : IntakeForm.t) (h : heap) :
  let suffix := lit " -> intended to avoid double-logging the same interaction" in
  BlueprintPage.duplicatePreventionLine Number_toString
    (document_json (blueprint h input))
  = (if truthy_str (IntakeForm.idempotencyKey input)
     then IntakeForm.idempotencyKey input ++ suffix
     else if IntakeForm.storeCallId input
             && truthy_str (IntakeForm.callIdField input)
     then IntakeForm.callIdField input ++ suffix
     else lit "Not specified").
Proof.
  cbn zeta.
  unfold BlueprintPage.duplicatePreventionLine,
    BlueprintPage.duplicatePreventionKey, BlueprintPage.ownership.
  cbn [BlueprintPage.interactionIdField]. read_document.
  destruct (IntakeForm.idempotencyKey input) as [|c key]; [|done].
  destruct (IntakeForm.storeCallId input); [|done].
  by destruct (IntakeForm.callIdField input).
Qed.

End duplicate_prevention.

(** ** The intake route *)

Section route.

Variable JSON_stringify : jsval → jsstring.
Variable JSON_stringify_indented : jsval → jsstring.
Variable Number_toString : Z → jsstring.
Variable page_JSON_stringify : jsval → jsstring.

#[local] Abbreviation POST :=
  (IntakeRoute.POST JSON_stringify JSON_stringify_indented).
#[local] Abbreviation email_text :=
  (IntakeRoute.email_text JSON_stringify JSON_stringify_indented).
#[local] Abbreviation shown := (IntakeRoute.shown JSON_stringify).

Lemma truthy_opt_some (v : option jsstring) :
  truthy_opt v = true → ∃ s, v = Some s ∧ s ≠ [].
Proof. destruct v as [[|c s]|]; try done. intros _. by eexists. Qed.

(** The answer of the [catch] block says [ok: false], with an error that
    is not blank. *)
Lemma failed_error e :
  get (IntakeRoute.json (IntakeRoute.failed e)) "ok" = JBool false
  ∧ truthy (get (IntakeRoute.json (IntakeRoute.failed e)) "error") = true.
Proof.
  split; [reflexivity|]. cbn.
  by destruct (truthy (get e "message")) eqn:He.
Qed.


(** X18: for the document of a validated input the six values of the
    email's summary are the first six values of the summary page: both
    show the input's CRM, contact center, agent workspace, event name and
    direction, and "N/A" for the channel. *)
Theorem X18_email_matches_summary
    (data : object) (input : IntakeForm.t) (h : heap) :
  safeParse data = ParseSuccess input →
  let doc := document_json (blueprint h input) in
  shown <$> [ IntakeRoute.crm doc; IntakeRoute.contactCenter doc;
              IntakeRoute.agentWorkspace doc; IntakeRoute.triggerEvent doc;
              IntakeRoute.triggerChannel doc; IntakeRoute.triggerDirection doc ]
  = take 6 (BlueprintPage.formattedValues Number_toString page_JSON_stringify
              doc).
Proof.
  intros Hvalid%accepted_form_valid.
  pose proof (valid_crm _ Hvalid) as Hcrm. enum_nonempty Hcrm.
  pose proof (valid_contactCenter _ Hvalid) as Hcc. enum_nonempty Hcc.
  pose proof (valid_agentWorkspace _ Hvalid) as Haw. enum_nonempty Haw.
  clear Hvalid. cbn zeta.
  unfold BlueprintPage.formattedValues, BlueprintPage.systems,
    BlueprintPage.ownership.
  cbn [BlueprintPage.crm BlueprintPage.contactCenter
       BlueprintPage.agentWorkspace BlueprintPage.interactionIdField take].
  unfold IntakeRoute.crm, IntakeRoute.contactCenter,
    IntakeRoute.agentWorkspace, IntakeRoute.triggerEvent,
    IntakeRoute.triggerChannel, IntakeRoute.triggerDirection.
  read_document. rewrite pickFirst_skip.
  rewrite !pickFirst_string by assumption. reflexivity.
Qed.

End route.


Lemma X18_witness :
  ∃ input,
    safeParse defaultValues = ParseSuccess input
    ∧ IntakeRoute.shown (λ _, [])
        <$> [ IntakeRoute.crm (document_json (blueprint [] input));
              IntakeRoute.contactCenter (document_json (blueprint [] input));
              IntakeRoute.agentWorkspace (document_json (blueprint [] input));
              IntakeRoute.triggerEvent (document_json (blueprint [] input));
              IntakeRoute.triggerChannel (document_json (blueprint [] input));
              IntakeRoute.triggerDirection (document_json (blueprint [] input)) ]
      = [ lit "hubspot"; lit "ringcentral"; lit "native_ccp_desktop";
          lit "ringcentral.interaction.accepted"; lit "N/A"; lit "inbound" ].
Proof.
  run_validator defaultValues input Hparse Hinput.
  exists input. split; [exact Hparse|].
  pose proof (X18_email_matches_summary (λ _, []) (λ _, []) (λ _, [])
                defaultValues input [] Hparse) as Hsame.
  cbv zeta in Hsame. rewrite Hsame. subst input. reflexivity.
Defined.

(** ** The checkbox groups *)

Lemma JsSet_add_all (s values : list jsstring) :
  NoDup s →
  NoDup (foldl JsSet.add s values)
  ∧ ∀ b, b ∈ foldl JsSet.add s values ↔ b ∈ s ∨ b ∈ values.
Proof.
  revert s. induction values as [|v values IH]; intros s Hs; cbn [foldl].
  - split; [done|]. intros b. rewrite elem_of_nil. tauto.
  - assert (NoDup (JsSet.add s v)
            ∧ ∀ b, b ∈ JsSet.add s v ↔ b ∈ s ∨ b = v) as [Hadd Hmem].
    { unfold JsSet.add. case_bool_decide as Hv.
      - split; [done|]. intros b. split; [tauto|]. by intros [?| ->].
      - split.
        + apply NoDup_app. split; [done|]. split; [|apply NoDup_singleton].
          intros x Hx ->%list_elem_of_singleton. done.
        + intros b. by rewrite elem_of_app, list_elem_of_singleton. }
    destruct (IH _ Hadd) as [Hnodup Hall]. split; [done|].
    intros b. rewrite Hall, Hmem, elem_of_cons. tauto.
Qed.

Lemma JsSet_add_fresh (s values : list jsstring) :
  NoDup (s ++ values) → foldl JsSet.add s values = s ++ values.
Proof.
  revert s. induction values as [|v values IH]; intros s Hs; cbn [foldl].
  - by rewrite app_nil_r.
  - assert (JsSet.add s v = s ++ [v]) as ->.
    { unfold JsSet.add. case_bool_decide as Hv; [|done].
      apply NoDup_app in Hs as (_ & Hs & _). destruct (Hs v Hv). by left. }
    rewrite IH; rewrite <- app_assoc; done.
Qed.

Lemma JsSet_of_array values :
  NoDup (JsSet.of_array values)
  ∧ (∀ b, b ∈ JsSet.of_array values ↔ b ∈ values)
  ∧ (NoDup values → JsSet.of_array values = values).
Proof.
  unfold JsSet.of_array.
  destruct (JsSet_add_all [] values (NoDup_nil_2)) as [Hnodup Hall].
  split; [done|]. split.
  - intros b. rewrite Hall, elem_of_nil. tauto.
  - intros Hvalues. by apply (JsSet_add_fresh []).
Qed.

(** X19: ticking or clearing the box of option [a] sets the form value to
    an array without repetitions in which [a] occurs exactly when the box
    is ticked and every other option occurs exactly when it did before. An
    array without repetitions that already agrees with the box is left as
    it is, and a newly ticked option goes to its end. *)
Theorem X19_checkbox_sets_value
    (checked : bool) (a : jsstring) (values : option (list jsstring)) :
  let current := default [] values in
  let next := onChange checked a values in
  NoDup next
  ∧ (a ∈ next ↔ checked = true)
  ∧ (∀ b, b ≠ a → b ∈ next ↔ b ∈ current)
  ∧ (NoDup current → (a ∈ current ↔ checked = true) → next = current)
  ∧ (NoDup current → a ∉ current → checked = true → next = current ++ [a]).
Proof.
  cbn zeta. unfold onChange. cbv zeta.
  destruct (JsSet_of_array (default [] values)) as (Hnodup & Hmem & Hsame).
  set (s := JsSet.of_array (default [] values)) in *.
  destruct checked.
  - unfold JsSet.add. case_bool_decide as Ha.
    + split; [done|]. split; [done|]. split; [by intros b _|].
      split; [by intros Hv _; apply Hsame|].
      intros _ Hfresh _. destruct Hfresh. by apply Hmem.
    + split.
      { apply NoDup_app. split; [done|]. split; [|apply NoDup_singleton].
        intros x Hx ->%list_elem_of_singleton. done. }
      split.
      { split; [done|]. intros _. apply elem_of_app. right. by left. }
      split.
      { intros b Hb. rewrite elem_of_app, list_elem_of_singleton, Hmem.
        tauto. }
      split.
      { intros _ Hagree. destruct Ha. apply Hmem. by apply Hagree. }
      intros Hv _ _. by rewrite (Hsame Hv).
  - unfold JsSet.delete. split; [by apply NoDup_filter|].
    split.
    { rewrite list_elem_of_filter. split; [by intros [? _]|done]. }
    split.
    { intros b Hb. rewrite list_elem_of_filter, Hmem. tauto. }
    split; [|done].
    intros Hv Hagree. rewrite (Hsame Hv).
    assert (a ∉ (default [] values)) as Ha.
    { intros Ha. by apply Hagree in Ha. }
    clear -Ha. induction (default [] values) as [|v l IH]; [done|].
    apply not_elem_of_cons in Ha as [Hne Ha].
    rewrite filter_cons_True by done. by rewrite IH.
Qed.

Lemma X19_witness :
  let values := Some [lit "contact"; lit "deal"] in
  (lit "company" ∉ default [] values)
  ∧ onChange true (lit "company") values
    = [lit "contact"; lit "deal"; lit "company"].
Proof.
  cbv zeta.
  assert (NoDup [lit "contact"; lit "deal"]) as Hnodup
    by (by apply (bool_decide_unpack _)).
  assert (lit "company" ∉ [lit "contact"; lit "deal"]) as Hfresh
    by (by apply (bool_decide_unpack _)).
  split; [exact Hfresh|].
  destruct (X19_checkbox_sets_value true (lit "company")
              (Some [lit "contact"; lit "deal"])) as (_ & _ & _ & _ & Hend).
  exact (Hend Hnodup Hfresh eq_refl).
Defined.

